(** * A shallow embedding of the todo page ([src/app/page.tsx])

    The page is one React component, [Home], over a list of [Todo]s that is
    mirrored to [localStorage].  This file has three layers:

    - the JavaScript values the code touches: numbers, strings, the values
      that [JSON.parse] returns, property access, [typeof], exceptions;
    - the module-level functions [createId] and [loadTodos];
    - the component [Home]: its state, the updates its handlers queue, the
      effect that writes the list back, and the events a user can cause.

    The theorems follow the definitions. *)

From Stdlib Require Import ZArith DecimalString.
From Stdlib Require DecimalPos DecimalZ.
From stdpp Require Import base option strings list gmap.

#[local] Set Warnings "-register-all".

(** ** JavaScript values *)

(** A JS [number] is an IEEE double.  The page never computes with one: it
    asks for its [typeof], and hands it to [JSON].  [JSON] tells apart the
    values that have a literal from [NaN] and the infinities, which it writes
    as [null], and it writes [-0] as [0].  [Int z] stands for the finite double
    of integer value [z] ([Int 0] is [+0]), which is what [Date.now()]
    returns; doubles with a fractional part are left out, the page treats
    them as it treats these. *)
Inductive number : Set :=
  | NaN
  | PosInfinity
  | NegInfinity
  | NegZero
  | Int (z : Z).

#[global] Instance number_eq_dec : EqDecision number.
Proof. solve_decision. Defined.

(** The numbers that [JSON] writes and reads back unchanged. *)
Definition json_exact (n : number) : bool :=
  match n with
  | Int _ => true
  | _ => false
  end.

(** A JS string is a sequence of UTF-16 code units; here the code units are
    those below 256, one [ascii] each. *)

(** [s.trim()] removes white space and line terminators from both ends;
    among the code units below 256 these are TAB, LF, VT, FF, CR, SP and
    NBSP. *)
Definition is_white (c : Ascii.ascii) : bool :=
  let n := Ascii.nat_of_ascii c in
  (Nat.leb 9 n && Nat.leb n 13) || Nat.eqb n 32 || Nat.eqb n 160.

Fixpoint trimStart (s : string) : string :=
  match s with
  | String c s' => if is_white c then trimStart s' else s
  | EmptyString => EmptyString
  end.

Fixpoint trimEnd (s : string) : string :=
  match s with
  | String c s' =>
      match trimEnd s' with
      | EmptyString => if is_white c then EmptyString else String c EmptyString
      | rest => String c rest
      end
  | EmptyString => EmptyString
  end.

Definition trim (s : string) : string := trimEnd (trimStart s).

(** The values that [JSON.parse] returns: [null], booleans, numbers,
    strings, arrays, and objects with string keys.  The page meets one more
    value, [undefined], when it reads a property that is not there: an
    [option value] is a value or [undefined]. *)
Inductive value : Type :=
  | VNull
  | VBool (b : bool)
  | VNumber (n : number)
  | VString (s : string)
  | VArray (a : list value)
  | VObject (o : gmap string value).

(** The [typeof] operator. *)
Definition typeof (v : option value) : string :=
  match v with
  | None => "undefined"
  | Some VNull => "object"
  | Some (VBool _) => "boolean"
  | Some (VNumber _) => "number"
  | Some (VString _) => "string"
  | Some (VArray _) => "object"
  | Some (VObject _) => "object"
  end.

Definition Array_isArray (v : value) : bool :=
  match v with
  | VArray _ => true
  | _ => false
  end.

(** The elements of an array. *)
Definition elements (v : value) : list value :=
  match v with
  | VArray a => a
  | _ => []
  end.

(** *** Exceptions *)

Inductive exn : Set :=
  | SyntaxError
  | TypeError.

(** The outcome of evaluating an expression: a value, or a thrown
    exception. *)
Inductive completion (A : Type) : Type :=
  | Return (a : A)
  | Throw (e : exn).
Arguments Return {A} a.
Arguments Throw {A} e.

#[global] Instance completion_ret : MRet completion := @Return.
#[global] Instance completion_bind : MBind completion :=
  λ A B f m, match m with
             | Return a => f a
             | Throw e => Throw e
             end.

(** [try { body } catch { handler }] *)
Definition try_catch {A} (body : completion A) (handler : completion A)
  : completion A :=
  match body with
  | Return a => Return a
  | Throw _ => handler
  end.

(** [a && b] on booleans: [b] is evaluated only when [a] is true. *)
Definition and_then (a b : completion bool) : completion bool :=
  a ≫= λ x : bool, if x then b else mret false.
Infix "&&&" := and_then (at level 40, left associativity).

(** [v.k], for the property names the page reads ([id], [text], [completed],
    [createdAt]).  On [null] it throws a [TypeError]; on an object it finds
    the own property or gives [undefined]; booleans, numbers, strings and
    arrays have no property of these names, neither their own nor
    inherited. *)
Definition get (v : value) (k : string) : completion (option value) :=
  match v with
  | VNull => Throw TypeError
  | VObject o => Return (o !! k)
  | VBool _ | VNumber _ | VString _ | VArray _ => Return None
  end.

(** [a.filter(p)] when [p] may throw: the elements are visited from the
    first on, and the first exception ends the call. *)
Fixpoint Array_filter {A} (p : A → completion bool) (a : list A)
  : completion (list A) :=
  match a with
  | [] => mret []
  | x :: a' =>
      keep ← p x;
      rest ← Array_filter p a';
      mret (if keep : bool then x :: rest else rest)
  end.

(** *** Stored text and JSON *)

(** The string kept under a [localStorage] key, as far as [JSON.parse] tells
    strings apart: the empty string, a non-empty string that is not JSON
    text, and JSON text, given by the value that [JSON.parse] returns for
    it. *)
Inductive stored : Type :=
  | Blank
  | Garbage
  | Doc (v : value).

(** [!stored] for a string. *)
Definition falsy (s : stored) : bool :=
  match s with
  | Blank => true
  | Garbage | Doc _ => false
  end.

Definition JSON_parse (s : stored) : completion value :=
  match s with
  | Blank | Garbage => Throw SyntaxError
  | Doc v => Return v
  end.

(** What [JSON.stringify] writes for a number: a literal for a finite one
    ([-0] is written [0]), [null] otherwise. *)
Definition json_of_number (n : number) : value :=
  match n with
  | Int z => VNumber (Int z)
  | NegZero => VNumber (Int 0)
  | NaN | PosInfinity | NegInfinity => VNull
  end.

(** What [JSON.stringify] writes for a value that [JSON.parse] returned,
    given by the value that [JSON.parse] returns for the text: the numbers
    are written as [json_of_number] says, wherever they stand. *)
Fixpoint json_of_value (v : value) : value :=
  match v with
  | VNumber n => json_of_number n
  | VArray a => VArray (json_of_value <$> a)
  | VObject o => VObject (json_of_value <$> o)
  | VNull | VBool _ | VString _ => v
  end.

(** ** The module: [Todo], [Filter], [createId], [loadTodos] *)

(** A todo on the page is a JS object.  The record has the four properties
    of [interface Todo], with their types, and under [rest] the other own
    properties of the object: an object that comes from [localStorage] keeps
    the properties it was stored with. *)

Module Todo.
Record t : Type := {
  id : string;
  text : string;
  completed : bool;
  createdAt : number;
  rest : gmap string value;
}.
End Todo.
Abbreviation Todo := Todo.t.

Module Filter.
Inductive t : Set :=
  | all
  | active
  | completed.
End Filter.
Abbreviation Filter := Filter.t.

(** The object that a record stands for: the other properties, and over
    them the four of the interface. *)
Definition object_of (todo : Todo) : value :=
  VObject (<["id" := VString (Todo.id todo)]>
           (<["text" := VString (Todo.text todo)]>
            (<["completed" := VBool (Todo.completed todo)]>
             (<["createdAt" := VNumber (Todo.createdAt todo)]>
              (Todo.rest todo))))).

(** [JSON.stringify(todos)]: the text of the array of the objects. *)
Definition JSON_stringify (todos : list Todo) : stored :=
  Doc (json_of_value (VArray (object_of <$> todos))).

(** The properties of an object that are not the four of the interface. *)
Definition others (o : gmap string value) : gmap string value :=
  delete "id" (delete "text" (delete "completed" (delete "createdAt" o))).

(** [parsed as Todo[]]: the record that stands for an element.  TypeScript
    does not check the assertion; the callback of [filter] is what makes
    sure that the properties are there with their types.  For an element
    that the callback keeps the record is the element itself
    ([object_of_record_of]); a property that is missing or of another type
    reads as the empty string, [false] or [NaN]. *)
Definition record_of (v : value) : Todo :=
  let o := match v with
           | VObject o => o
           | _ => ∅
           end in
  {| Todo.id := match o !! "id" with
                | Some (VString s) => s
                | _ => ""
                end;
     Todo.text := match o !! "text" with
                  | Some (VString s) => s
                  | _ => ""
                  end;
     Todo.completed := match o !! "completed" with
                       | Some (VBool b) => b
                       | _ => false
                       end;
     Todo.createdAt := match o !! "createdAt" with
                       | Some (VNumber n) => n
                       | _ => NaN
                       end;
     Todo.rest := others o |}.

Definition STORAGE_KEY : string := "minimal-pretty-todos".

(** Where the code runs: on the server, where [window] is undefined, or in
    a browser, which has a [localStorage], a map from keys to strings.
    Reading and writing an item always succeeds: the store has no quota and
    is not blocked. *)
Inductive host : Type :=
  | Server
  | Browser (localStorage : gmap string stored).

(** The global [crypto], when there is one: [randomUUID] is [None] when the
    object lacks the method, and otherwise the string the call returns. *)
Record Crypto : Type := {
  randomUUID : option string;
}.

(** What one call of the submit handler reads from outside: the global
    [crypto] ([None] when [typeof crypto] is ["undefined"]), the results of
    the two calls of [Date.now()] (the first inside [createId], the second
    for [createdAt]), and the text of [Math.random().toString(16)]. *)
Record ambient : Type := {
  crypto : option Crypto;
  Date_now_id : Z;
  Math_random_hex : string;
  Date_now : Z;
}.

(** [`${n}`] for an integer [n] of the size of a time stamp: its decimal
    digits. *)
Definition Number_toString (n : Z) : string :=
  NilZero.string_of_int (Z.to_int n).

(** [s.slice(start)] *)
Definition String_slice (start : nat) (s : string) : string :=
  String.substring start (String.length s - start) s.

Definition createId (env : ambient) : string :=
  match crypto env with
  | Some {| randomUUID := Some uuid |} => uuid
  | _ =>
      Number_toString (Date_now_id env) +:+ "-" +:+
      String_slice 2 (Math_random_hex env)
  end.

(** The callback of [parsed.filter] in [loadTodos]. *)
Definition typeof_is (ty : string) (v : completion (option value))
  : completion bool :=
  x ← v; mret (bool_decide (typeof x = ty)).

Definition is_Todo (todo : value) : completion bool :=
  typeof_is "string" (get todo "id") &&&
  typeof_is "string" (get todo "text") &&&
  typeof_is "boolean" (get todo "completed") &&&
  typeof_is "number" (get todo "createdAt").

Definition loadTodos (h : host) : completion (list Todo) :=
  match h with
  | Server => mret []
  | Browser localStorage =>
      try_catch
        (match localStorage !! STORAGE_KEY with
         | None => mret []
         | Some stored =>
             if falsy stored then mret [] else
             parsed ← JSON_parse stored;
             if negb (Array_isArray parsed) then mret [] else
             kept ← Array_filter is_Todo (elements parsed);
             mret (record_of <$> kept)
         end)
        (mret [])
  end.

(** ** The component [Home] *)

Module Home.

(** The three [useState] cells. *)
Record State : Type := {
  todos : list Todo;
  text : string;
  filter : Filter;
}.

(** [useState] initial values. *)
Definition initial : State :=
  {| todos := []; text := ""; filter := Filter.all |}.

(** A handler does not change the state: it queues updates, which React
    applies in order before the next render. *)
Inductive update : Type :=
  | setTodos (f : list Todo → list Todo)
  | setText (s : string)
  | setFilter (f : Filter).

Definition apply (st : State) (u : update) : State :=
  match u with
  | setTodos f => {| todos := f (todos st); text := text st; filter := filter st |}
  | setText s => {| todos := todos st; text := s; filter := filter st |}
  | setFilter f => {| todos := todos st; text := text st; filter := f |}
  end.

Definition render (queue : list update) (st : State) : State :=
  foldl apply st queue.

(** [stats] and [filteredTodos], the two [useMemo] values. *)
Record Stats : Type := {
  total : nat;
  completed : nat;
  remaining : nat;
}.

Definition stats (st : State) : Stats :=
  let total := length (todos st) in
  let completed :=
    length (base.filter (λ todo, Is_true (Todo.completed todo)) (todos st)) in
  {| total := total; completed := completed; remaining := total - completed |}.

Definition filteredTodos (st : State) : list Todo :=
  match filter st with
  | Filter.active =>
      base.filter (λ todo, Is_true (negb (Todo.completed todo))) (todos st)
  | Filter.completed =>
      base.filter (λ todo, Is_true (Todo.completed todo)) (todos st)
  | Filter.all => todos st
  end.

(** The handlers.  [handleSubmit] reads [text] of the render it belongs
    to; an empty queue is its early [return]. *)
Definition handleSubmit (env : ambient) (st : State) : list update :=
  let trimmed := trim (text st) in
  if decide (trimmed = "") then [] else
  let nextTodo :=
    {| Todo.id := createId env;
       Todo.text := trimmed;
       Todo.completed := false;
       Todo.createdAt := Int (Date_now env);
       Todo.rest := ∅ |} in
  [setTodos (λ prev, nextTodo :: prev); setText ""].

Definition toggleTodo (id : string) : list update :=
  [setTodos (λ prev,
     (λ todo,
        if decide (Todo.id todo = id)
        then {| Todo.id := Todo.id todo;
                Todo.text := Todo.text todo;
                Todo.completed := negb (Todo.completed todo);
                Todo.createdAt := Todo.createdAt todo;
                Todo.rest := Todo.rest todo |}
        else todo) <$> prev)].

Definition deleteTodo (id : string) : list update :=
  [setTodos (λ prev, base.filter (λ todo, Todo.id todo ≠ id) prev)].

Definition clearCompleted : list update :=
  [setTodos (λ prev,
     base.filter (λ todo, Is_true (negb (Todo.completed todo))) prev)].

(** The effect with dependency [todos]: on the server it returns at once,
    in a browser it overwrites the item under [STORAGE_KEY]. *)
Definition save (todos : list Todo) (h : host) : host :=
  match h with
  | Server => Server
  | Browser localStorage =>
      Browser (<[STORAGE_KEY := JSON_stringify todos]> localStorage)
  end.

(** The page and the host it runs on. *)
Record world : Type := {
  page : State;
  env : host;
}.

(** The first commit: the first effect reads the stored list and queues
    [setTodos], the second writes the list of the first render, which is
    empty; the render that follows has the stored list and writes it
    back. *)
Definition mount (h : host) : completion world :=
  loaded ← loadTodos h;
  mret {| page := render [setTodos (λ _, loaded)] initial;
          env := save loaded (save (todos initial) h) |}.

(** Every call of [setTodos] in this file gives a new array, so the effect
    runs after a queue that holds one, and only then. *)
Definition sets_todos (u : update) : bool :=
  match u with
  | setTodos _ => true
  | setText _ | setFilter _ => false
  end.

Definition commit (queue : list update) (w : world) : world :=
  let st := render queue (page w) in
  {| page := st;
     env := if existsb sets_todos queue then save (todos st) (env w)
            else env w |}.

(** What the user can do: submit the form, type in the input, and press
    the toggle or the remove button of a row, "Clear completed", or one of
    the filter buttons. *)
Inductive event : Type :=
  | Submit (env : ambient)
  | Change (value : string)
  | Toggle (id : string)
  | Remove (id : string)
  | Clear
  | Select (key : Filter).

Definition handler (e : event) (st : State) : list update :=
  match e with
  | Submit env => handleSubmit env st
  | Change value => [setText value]
  | Toggle id => toggleTodo id
  | Remove id => deleteTodo id
  | Clear => clearCompleted
  | Select key => [setFilter key]
  end.

Definition step (w : world) (e : event) : world :=
  commit (handler e (page w)) w.

Definition run (w : world) (es : list event) : world :=
  foldl step w es.

End Home.

(** ** Vocabulary of the properties *)

(** [R] holds exactly the elements of [L] that satisfy [P], in the order
    they have in [L]: [R] is picked from [L] in order, all of it satisfies
    [P], and everything picked from [L] in order that satisfies [P] is
    picked from [R]. *)
Definition selects {A} (P : A → Prop) (L R : list A) : Prop :=
  R `sublist_of` L ∧
  Forall P R ∧
  ∀ k, k `sublist_of` L → Forall P k → k `sublist_of` R.

Definition ids (L : list Todo) : list string := Todo.id <$> L.

(** An element that has the four properties of the interface with their
    types, read as a todo; [None] for any other element. *)
Definition as_Todo (v : value) : option Todo :=
  match v with
  | VObject o =>
      match o !! "id", o !! "text", o !! "completed", o !! "createdAt" with
      | Some (VString _), Some (VString _), Some (VBool _), Some (VNumber _) =>
          Some (record_of v)
      | _, _, _, _ => None
      end
  | _ => None
  end.

(** The object that [JSON.parse] returns for what [JSON.stringify] wrote for
    a todo. *)
Definition json_of_Todo (todo : Todo) : value :=
  json_of_value (object_of todo).

(** The function that [toggleTodo] maps over the list. *)
Definition flip_if (i : string) (todo : Todo) : Todo :=
  if decide (Todo.id todo = i)
  then {| Todo.id := Todo.id todo;
          Todo.text := Todo.text todo;
          Todo.completed := negb (Todo.completed todo);
          Todo.createdAt := Todo.createdAt todo;
          Todo.rest := Todo.rest todo |}
  else todo.

(** Every number in a value is finite and not [-0]. *)
Fixpoint exact_numbers (v : value) : bool :=
  match v with
  | VNumber n => json_exact n
  | VArray a => forallb exact_numbers a
  | VObject o => map_fold (λ _ x acc, exact_numbers x && acc) true o
  | VNull | VBool _ | VString _ => true
  end.

(** The number of arrays and objects in a value. *)
Fixpoint value_size (v : value) : nat :=
  match v with
  | VArray a => S (foldr (λ x acc, value_size x + acc) 0 a)
  | VObject o => S (map_fold (λ _ x acc, value_size x + acc) 0 o)
  | VNull | VBool _ | VNumber _ | VString _ => 0
  end.

(** A record is proper when [rest] holds none of the four properties of
    the interface, as for every record of an object ([proper_record_of]);
    it is exact when [JSON] writes its numbers as they are: [createdAt] and
    the numbers in its other properties are finite and not [-0]. *)
Definition proper (todo : Todo) : Prop :=
  others (Todo.rest todo) = Todo.rest todo.

Definition exact_todo (todo : Todo) : Prop :=
  json_exact (Todo.createdAt todo) = true ∧
  map_Forall (λ _ v, exact_numbers v = true) (Todo.rest todo).

(** The other properties of a todo as [JSON] writes and reads them. *)
Definition reread_rest (todo : Todo) : gmap string value :=
  json_of_value <$> others (Todo.rest todo).

(** What [loadTodos] makes of a todo that [JSON.stringify] wrote: nothing
    when its [createdAt] is [NaN] or an infinity, which is written [null];
    otherwise the todo, with [createdAt] and the numbers in its other
    properties as [JSON] writes them. *)
Definition reread (todo : Todo) : option Todo :=
  match Todo.createdAt todo with
  | Int z =>
      Some {| Todo.id := Todo.id todo;
              Todo.text := Todo.text todo;
              Todo.completed := Todo.completed todo;
              Todo.createdAt := Int z;
              Todo.rest := reread_rest todo |}
  | NegZero =>
      Some {| Todo.id := Todo.id todo;
              Todo.text := Todo.text todo;
              Todo.completed := Todo.completed todo;
              Todo.createdAt := Int 0;
              Todo.rest := reread_rest todo |}
  | NaN | PosInfinity | NegInfinity => None
  end.

(** The events of [es], from the world [w] on, give fresh ids: whenever a
    submit adds a todo, the id that [createId] returns for it is not in the
    list yet. *)
Fixpoint fresh_ids (w : Home.world) (es : list Home.event) : Prop :=
  match es with
  | [] => True
  | e :: es' =>
      match e with
      | Home.Submit env =>
          trim (Home.text (Home.page w)) ≠ "" →
          createId env ∉ ids (Home.todos (Home.page w))
      | _ => True
      end ∧
      fresh_ids (Home.step w e) es'
  end.

(** The ids of the elements of the stored array that read as todos. *)
Definition stored_ids (h : host) : list string :=
  match h with
  | Browser ls =>
      match ls !! STORAGE_KEY with
      | Some (Doc (VArray a)) => ids (omap as_Todo a)
      | _ => []
      end
  | Server => []
  end.

(** Sentences of the specification that do not hold of the code as they
    stand, each as it is written there. *)

(** A submit of a blank input changes nothing, and any other submit puts
    in front of the list a todo with the trimmed input as text, not
    completed, with a fresh id and the current time, and empties the
    input. *)
Definition adds_fresh (env : ambient) (st : Home.State) : Prop :=
  let st' := Home.render (Home.handleSubmit env st) st in
  let trimmed := trim (Home.text st) in
  (trimmed = "" → st' = st) ∧
  (trimmed ≠ "" →
   ∃ todo, Home.todos st' = todo :: Home.todos st ∧
     Todo.text todo = trimmed ∧
     Todo.completed todo = false ∧
     (Todo.id todo ∉ ids (Home.todos st)) ∧
     Todo.createdAt todo = Int (Date_now env) ∧
     Home.text st' = "").

(** Removing an id takes at most one todo away, is idempotent, and does
    nothing when no todo has the id. *)
Definition deletes_at_most_one (i : string) (st : Home.State) : Prop :=
  let st' := Home.render (Home.deleteTodo i) st in
  length (Home.todos st) ≤ S (length (Home.todos st')) ∧
  Home.render (Home.deleteTodo i) st' = st' ∧
  (i ∉ ids (Home.todos st) → st' = st).

(** Loading after saving gives the list back. *)
Definition round_trip (L : list Todo) (ls : gmap string stored) : Prop :=
  loadTodos (Home.save L (Browser ls)) = Return L.

(** Loading gives the empty list for what is not the text of an array, and
    for the text of an array the elements that read as todos. *)
Definition drops_only_bad (ls : gmap string stored) : Prop :=
  (∀ s, ls !! STORAGE_KEY = Some s →
     s = Blank ∨ s = Garbage ∨ (∃ v, s = Doc v ∧ Array_isArray v = false) →
     loadTodos (Browser ls) = Return []) ∧
  (∀ a, ls !! STORAGE_KEY = Some (Doc (VArray a)) →
     loadTodos (Browser ls) = Return (omap as_Todo a)).

(** Every list the page can reach, from any host, has pairwise distinct
    ids. *)
Definition ids_always_unique : Prop :=
  ∀ (h : host) (w : Home.world) (es : list Home.event),
    Home.mount h = Return w →
    NoDup (ids (Home.todos (Home.page (Home.run w es)))).

(** ** Sample data *)

Definition twins : list Todo :=
  [ {| Todo.id := "a"; Todo.text := "milk";
       Todo.completed := false; Todo.createdAt := Int 1; Todo.rest := ∅ |};
    {| Todo.id := "a"; Todo.text := "eggs";
       Todo.completed := true; Todo.createdAt := Int 2; Todo.rest := ∅ |} ].

(** A browser that holds the text
    [[{"id":"a","text":"milk","completed":false,"createdAt":1},
      {"id":"a","text":"eggs","completed":true,"createdAt":2}]]. *)
Definition stored_twins : host :=
  Browser {[ STORAGE_KEY := JSON_stringify twins ]}.

(** The todo that [loadTodos] returns for the text
    [[{"id":"a","text":"milk","completed":false,"createdAt":1e999}]]. *)
Definition late : Todo :=
  {| Todo.id := "a"; Todo.text := "milk";
     Todo.completed := false; Todo.createdAt := PosInfinity; Todo.rest := ∅ |}.

(** The text [[null,{"id":"a","text":"milk","completed":false,"createdAt":1}]]. *)
Definition null_and_milk : list value :=
  [ VNull;
    VObject {[ "id" := VString "a"; "text" := VString "milk";
               "completed" := VBool false; "createdAt" := VNumber (Int 1) ]} ].

(** The text [[{"id":"a","text":"milk","completed":false,"createdAt":1},
    {"id":7,"text":"eggs","completed":false,"createdAt":2},
    {"id":"c","text":"tea","createdAt":3}, "bread"]]. *)
Definition milk_and_bad : list value :=
  [ VObject {[ "id" := VString "a"; "text" := VString "milk";
               "completed" := VBool false; "createdAt" := VNumber (Int 1) ]};
    VObject {[ "id" := VNumber (Int 7); "text" := VString "eggs";
               "completed" := VBool false; "createdAt" := VNumber (Int 2) ]};
    VObject {[ "id" := VString "c"; "text" := VString "tea";
               "createdAt" := VNumber (Int 3) ]};
    VString "bread" ].

Definition two_todos : Home.State :=
  {| Home.todos := twins; Home.text := ""; Home.filter := Filter.all |}.

Definition one_todo : Home.State :=
  {| Home.todos :=
       [ {| Todo.id := "a"; Todo.text := "milk";
            Todo.completed := false; Todo.createdAt := Int 1; Todo.rest := ∅ |} ];
     Home.text := "";
     Home.filter := Filter.all |}.

(** The page with the todo that a submit on [uuid_host] added, and "eggs"
    in the input. *)
Definition typed_eggs : Home.State :=
  {| Home.todos :=
       [ {| Todo.id := "0b0e7b1c-5a52-4e6f-9d6e-3f1d2c4b5a69";
            Todo.text := "Buy milk";
            Todo.completed := false;
            Todo.createdAt := Int 1700000000000;
            Todo.rest := ∅ |} ];
     Home.text := "eggs";
     Home.filter := Filter.all |}.

(** A todo with a property more, as [loadTodos] returns it for the text
    [[{"id":"n","text":"tea","completed":false,"createdAt":3,"note":1e999}]],
    and the todo that is read after it has been saved. *)
Definition noted : Todo :=
  {| Todo.id := "n"; Todo.text := "tea";
     Todo.completed := false; Todo.createdAt := Int 3;
     Todo.rest := {[ "note" := VNumber PosInfinity ]} |}.

Definition noted_null : Todo :=
  {| Todo.id := "n"; Todo.text := "tea";
     Todo.completed := false; Todo.createdAt := Int 3;
     Todo.rest := {[ "note" := VNull ]} |}.

(** A todo with more properties, all of them written as they are. *)
Definition tagged : Todo :=
  {| Todo.id := "t"; Todo.text := "bread";
     Todo.completed := true; Todo.createdAt := Int 4;
     Todo.rest := {[ "tags" := VArray [VString "food"; VNumber (Int 2)];
                     "due" := VNull ]} |}.

(** The text [[1,"bread",[],{},
    {"id":"a","text":"milk","completed":false,"createdAt":1}]]. *)
Definition junk_and_milk : list value :=
  [ VNumber (Int 1); VString "bread"; VArray []; VObject ∅;
    VObject {[ "id" := VString "a"; "text" := VString "milk";
               "completed" := VBool false; "createdAt" := VNumber (Int 1) ]} ].

Definition typed_milk : Home.State :=
  {| Home.todos := []; Home.text := "  Buy milk "; Home.filter := Filter.all |}.

Definition typed_blanks : Home.State :=
  {| Home.todos := []; Home.text := "   "; Home.filter := Filter.active |}.

(** A browser with [crypto.randomUUID], and one without [crypto]. *)
Definition uuid_host : ambient :=
  {| crypto := Some {| randomUUID := Some "0b0e7b1c-5a52-4e6f-9d6e-3f1d2c4b5a69" |};
     Date_now_id := 0;
     Math_random_hex := "";
     Date_now := 1700000000000 |}.

Definition fallback_host : ambient :=
  {| crypto := None;
     Date_now_id := 1700000000500;
     Math_random_hex := "0.8f3a1c";
     Date_now := 1700000000501 |}.

Definition empty_page : Home.world :=
  {| Home.page := Home.initial; Home.env := Browser ∅ |}.

(** Add "Buy milk" and "eggs", tick "eggs", show the active ones, submit
    the empty input, clear the completed ones, add "tea". *)
Definition session : list Home.event :=
  [ Home.Change " Buy milk"; Home.Submit uuid_host;
    Home.Change "eggs"; Home.Submit fallback_host;
    Home.Toggle "1700000000500-8f3a1c"; Home.Select Filter.active;
    Home.Submit uuid_host; Home.Clear;
    Home.Change "tea"; Home.Submit fallback_host ].

(** ** Vocabulary of the further properties *)

(** In a browser, what is stored under the key is the text of the list on
    the page. *)
Definition mirrored (w : Home.world) : Prop :=
  match Home.env w with
  | Server => True
  | Browser ls =>
      ls !! STORAGE_KEY = Some (JSON_stringify (Home.todos (Home.page w)))
  end.

(** Two hosts are of the same kind and, in a browser, hold the same items
    under every key but [STORAGE_KEY]. *)
Definition same_elsewhere (h h' : host) : Prop :=
  match h, h' with
  | Server, Server => True
  | Browser ls, Browser ls' =>
      ∀ k, k ≠ STORAGE_KEY → ls' !! k = ls !! k
  | _, _ => False
  end.

(** A todo as [handleSubmit] makes it: its text is not empty and has no
    white space at either end. *)
Definition tidy (todo : Todo) : Prop :=
  Todo.text todo ≠ "" ∧ trim (Todo.text todo) = Todo.text todo.

(** [s] is empty or starts with a character that is not white space. *)
Definition starts_clean (s : string) : Prop :=
  match s with
  | String c _ => is_white c = false
  | EmptyString => True
  end.

(** The UUID that [crypto.randomUUID()] returns, when the browser has
    it. *)
Definition native_uuid (env : ambient) : option string :=
  match crypto env with
  | Some c => randomUUID c
  | None => None
  end.

(** ** More sample data *)

(** The [localStorage] of a host (empty on the server), and the world that
    mounting the page on a host gives. *)
Definition store_of (h : host) : gmap string stored :=
  match h with
  | Browser ls => ls
  | Server => ∅
  end.

Definition mounted (h : host) : Home.world :=
  match Home.mount h with
  | Return w => w
  | Throw _ => {| Home.page := Home.initial; Home.env := h |}
  end.

Definition eggs : Todo :=
  {| Todo.id := "b"; Todo.text := "eggs";
     Todo.completed := true; Todo.createdAt := Int 2; Todo.rest := ∅ |}.

Definition milk_and_eggs : Home.State :=
  {| Home.todos :=
       [ {| Todo.id := "a"; Todo.text := "milk";
            Todo.completed := false; Todo.createdAt := Int 1; Todo.rest := ∅ |};
         eggs ];
     Home.text := "";
     Home.filter := Filter.all |}.

Definition zero_time : Todo :=
  {| Todo.id := "b"; Todo.text := "eggs";
     Todo.completed := true; Todo.createdAt := Int 0; Todo.rest := ∅ |}.

Definition odd_times : list Todo :=
  [ late;
    {| Todo.id := "b"; Todo.text := "eggs";
       Todo.completed := true; Todo.createdAt := NegZero; Todo.rest := ∅ |} ].

(** A browser that holds the text
    [[{"id":"t","text":"bread","completed":true,"createdAt":4,
       "tags":["food",2],"due":null},
      {"id":"b","text":"eggs","completed":true,"createdAt":2}]]. *)
Definition stored_tagged : host :=
  Browser {[ STORAGE_KEY := JSON_stringify [tagged; eggs] ]}.

(** A [localStorage] with an item of another application next to the
    list. *)
Definition shared_store : gmap string stored :=
  {[ "theme" := Garbage; STORAGE_KEY := JSON_stringify twins ]}.

(** A browser whose [crypto] has no [randomUUID], at the time and with the
    random digits of [fallback_host]. *)
Definition legacy_host : ambient :=
  {| crypto := Some {| randomUUID := None |};
     Date_now_id := 1700000000500;
     Math_random_hex := "0.8f3a1c";
     Date_now := 1700000000777 |}.

(** * Properties *)

(** ** Lists *)

Section lists.
Context {A : Type} (P : A → Prop) `{!∀ x, Decision (P x)}.

Lemma sublist_filter_greatest (k l : list A) :
  k `sublist_of` l → Forall P k → k `sublist_of` filter P l.
Proof.
  intros Hsub. induction Hsub as [|x k l _ IH|x k l _ IH]; intros HP.
  - constructor.
  - apply Forall_cons in HP as [Hx HP].
    rewrite filter_cons_True by done. constructor. by apply IH.
  - rewrite filter_cons. case_decide; [apply sublist_cons|]; by apply IH.
Qed.

Lemma selects_filter (l : list A) : selects P l (filter P l).
Proof.
  split_and!.
  - apply sublist_filter.
  - apply Forall_forall. intros x Hx. by apply list_elem_of_filter in Hx as [? _].
  - intros k. apply sublist_filter_greatest.
Qed.

(** [selects] names one list. *)
Lemma selects_unique (l r1 r2 : list A) :
  selects P l r1 → selects P l r2 → r1 = r2.
Proof.
  intros (S1 & F1 & G1) (S2 & F2 & G2).
  apply (anti_symm sublist); auto.
Qed.

Lemma filter_all (l : list A) : Forall P l → filter P l = l.
Proof.
  induction 1 as [|x l Hx _ IH]; [done|].
  by rewrite filter_cons_True, IH.
Qed.

Lemma filter_idemp (l : list A) : filter P (filter P l) = filter P l.
Proof.
  apply filter_all, Forall_forall. intros x Hx.
  by apply list_elem_of_filter in Hx as [? _].
Qed.
End lists.

Lemma omap_cons {A B} (f : A → option B) (x : A) (l : list A) :
  omap f (x :: l) =
  match f x with
  | Some y => y :: omap f l
  | None => omap f l
  end.
Proof. reflexivity. Qed.

Lemma omap_filter_is_Some {A B} (f : A → option B) (l : list A) :
  omap f (filter (λ x, is_Some (f x)) l) = omap f l.
Proof.
  induction l as [|x l IH]; [done|].
  rewrite filter_cons. case_decide as Hx.
  - by rewrite !omap_cons, IH.
  - rewrite omap_cons, IH. destruct (f x); [|done]. by destruct Hx.
Qed.

Lemma filter_not_completed (L : list Todo) :
  filter (λ todo, Is_true (negb (Todo.completed todo))) L =
  filter (λ todo, Todo.completed todo = false) L.
Proof.
  apply list_filter_iff. intros todo. by destruct (Todo.completed todo).
Qed.

Lemma filter_completed (L : list Todo) :
  filter (λ todo, Is_true (Todo.completed todo)) L =
  filter (λ todo, Todo.completed todo = true) L.
Proof.
  apply list_filter_iff. intros todo. by destruct (Todo.completed todo).
Qed.

(** ** What the handlers do to the state *)

Lemma State_eq (st st' : Home.State) :
  Home.todos st = Home.todos st' →
  Home.text st = Home.text st' →
  Home.filter st = Home.filter st' →
  st = st'.
Proof. destruct st, st'; simpl; congruence. Qed.

Lemma toggleTodo_todos (i : string) (st : Home.State) :
  Home.todos (Home.render (Home.toggleTodo i) st) = flip_if i <$> Home.todos st.
Proof. reflexivity. Qed.

Lemma deleteTodo_todos (i : string) (st : Home.State) :
  Home.todos (Home.render (Home.deleteTodo i) st) =
  filter (λ todo, Todo.id todo ≠ i) (Home.todos st).
Proof. reflexivity. Qed.

Lemma clearCompleted_todos (st : Home.State) :
  Home.todos (Home.render Home.clearCompleted st) =
  filter (λ todo, Todo.completed todo = false) (Home.todos st).
Proof. apply filter_not_completed. Qed.

Lemma step_todos (w : Home.world) (e : Home.event) :
  Home.todos (Home.page (Home.step w e)) =
  Home.todos (Home.render (Home.handler e (Home.page w)) (Home.page w)).
Proof. reflexivity. Qed.

Lemma flip_if_id (i : string) (todo : Todo) :
  Todo.id (flip_if i todo) = Todo.id todo.
Proof. unfold flip_if. by case_decide. Qed.

Lemma flip_if_twice (i : string) (todo : Todo) :
  flip_if i (flip_if i todo) = todo.
Proof.
  unfold flip_if. destruct todo as [j t c n]; simpl.
  repeat (case_decide; simpl in *); try done.
  by rewrite negb_involutive.
Qed.

Lemma flip_if_other (i : string) (todo : Todo) :
  Todo.id todo ≠ i → flip_if i todo = todo.
Proof. intros. unfold flip_if. by case_decide. Qed.

Lemma ids_toggle (i : string) (L : list Todo) : ids (flip_if i <$> L) = ids L.
Proof.
  unfold ids. rewrite <- list_fmap_compose. apply list_fmap_ext.
  intros _ todo _. apply flip_if_id.
Qed.

Lemma filter_other_ids (i : string) (L : list Todo) :
  i ∉ ids L → filter (λ todo, Todo.id todo ≠ i) L = L.
Proof.
  intros Hi. apply filter_all, Forall_forall. intros todo Hin <-.
  apply Hi, list_elem_of_fmap. by exists todo.
Qed.

Lemma filter_unique_id (i : string) (L : list Todo) :
  NoDup (ids L) →
  length L ≤ S (length (filter (λ todo, Todo.id todo ≠ i) L)).
Proof.
  unfold ids. induction L as [|todo L IH]; simpl; [lia|].
  intros [Hhd Htl]%NoDup_cons. rewrite filter_cons. case_decide; simpl.
  - specialize (IH Htl). lia.
  - assert (Todo.id todo = i) as <- by by destruct (decide (Todo.id todo = i)).
    by rewrite filter_other_ids.
Qed.

Lemma NoDup_ids_filter (P : Todo → Prop) `{!∀ x, Decision (P x)} (L : list Todo) :
  NoDup (ids L) → NoDup (ids (filter P L)).
Proof.
  intros HL. eapply sublist_NoDup; [exact HL|].
  unfold ids. apply fmap_sublist, sublist_filter.
Qed.

(** C1: [clearCompleted] leaves exactly the todos whose [completed] is
    false, in the order they had, and touches neither the input nor the
    filter. *)
Theorem clearCompleted_keeps_active (st : Home.State) :
  let st' := Home.render Home.clearCompleted st in
  selects (λ todo, Todo.completed todo = false)
    (Home.todos st) (Home.todos st') ∧
  Home.text st' = Home.text st ∧
  Home.filter st' = Home.filter st.
Proof.
  intros st'. subst st'. split; [|done].
  rewrite clearCompleted_todos. apply selects_filter.
Qed.

(** C2, as stated, fails: the id of the new todo is what [createId]
    returns, and nothing compares it with the ids of the list.  On
    [typed_eggs], when [crypto.randomUUID()] returns the id of the todo that
    is there, the new todo has that id too. *)
Lemma handleSubmit_repeats_an_id :
  ids (Home.todos
         (Home.render (Home.handleSubmit uuid_host typed_eggs) typed_eggs)) =
    [ "0b0e7b1c-5a52-4e6f-9d6e-3f1d2c4b5a69";
      "0b0e7b1c-5a52-4e6f-9d6e-3f1d2c4b5a69" ] ∧
  ¬ adds_fresh uuid_host typed_eggs.
Proof.
  split; [done|]. intros [_ H].
  destruct H as (todo & Htodo & _ & _ & Hfresh & _); [by vm_compute|].
  apply Hfresh. apply (f_equal head) in Htodo. injection Htodo as <-.
  by left.
Qed.

(** C2, amended: when the input trims to the empty string, submitting
    changes nothing, neither the list nor the input; otherwise the list gets
    one todo more, in front, with the trimmed input as [text], [completed]
    false, the id that [createId] returns in this call and the time that
    [Date.now()] gives, the todos that were there follow as they were, and
    the input is emptied.  The id is fresh when [createId] returns an id
    that no todo of the list has: then ids that were pairwise distinct
    stay so. *)
Theorem handleSubmit_adds_in_front (env : ambient) (st : Home.State) :
  let st' := Home.render (Home.handleSubmit env st) st in
  let trimmed := trim (Home.text st) in
  (trimmed = "" → st' = st) ∧
  (trimmed ≠ "" →
   Home.todos st' =
     {| Todo.id := createId env;
        Todo.text := trimmed;
        Todo.completed := false;
        Todo.createdAt := Int (Date_now env);
        Todo.rest := ∅ |} :: Home.todos st ∧
   length (Home.todos st') = S (length (Home.todos st)) ∧
   Home.text st' = "" ∧
   Home.filter st' = Home.filter st ∧
   (createId env ∉ ids (Home.todos st) →
    NoDup (ids (Home.todos st)) → NoDup (ids (Home.todos st')))).
Proof.
  intros st' trimmed. subst st' trimmed. unfold Home.handleSubmit.
  split; intros Htrim; case_decide; try done.
  split_and!; try done. intros Hfresh HL. simpl.
  apply NoDup_cons. by split.
Qed.

Lemma handleSubmit_adds_in_front_witness :
  Home.render (Home.handleSubmit uuid_host typed_blanks) typed_blanks =
    typed_blanks ∧
  Home.todos (Home.render (Home.handleSubmit uuid_host typed_milk) typed_milk) =
    [ {| Todo.id := "0b0e7b1c-5a52-4e6f-9d6e-3f1d2c4b5a69";
         Todo.text := "Buy milk";
         Todo.completed := false;
         Todo.createdAt := Int 1700000000000;
         Todo.rest := ∅ |} ] ∧
  NoDup (ids (Home.todos
                (Home.render (Home.handleSubmit fallback_host typed_eggs)
                   typed_eggs))).
Proof.
  split_and!.
  - apply (handleSubmit_adds_in_front uuid_host typed_blanks). reflexivity.
  - apply (handleSubmit_adds_in_front uuid_host typed_milk).
    vm_compute. discriminate.
  - apply (handleSubmit_adds_in_front fallback_host typed_eggs).
    + vm_compute. discriminate.
    + vm_compute. by intros [?|?%elem_of_nil]%elem_of_cons.
    + vm_compute. apply NoDup_singleton.
Defined.

(** C3: toggling the same id twice gives the state back, and toggling an id
    that no todo has changes nothing. *)
Theorem toggleTodo_involutive (i : string) (st : Home.State) :
  Home.render (Home.toggleTodo i) (Home.render (Home.toggleTodo i) st) = st ∧
  (i ∉ ids (Home.todos st) → Home.render (Home.toggleTodo i) st = st).
Proof.
  split.
  - apply State_eq; try done.
    rewrite !toggleTodo_todos, <- list_fmap_compose.
    rewrite <- (list_fmap_id (Home.todos st)) at 2.
    apply list_fmap_ext. intros _ todo _. apply flip_if_twice.
  - intros Hi. apply State_eq; try done.
    rewrite toggleTodo_todos.
    rewrite <- (list_fmap_id (Home.todos st)) at 2.
    apply list_fmap_ext. intros n todo Hn. apply flip_if_other.
    intros <-. apply Hi. unfold ids.
    apply list_elem_of_fmap. exists todo. split; [done|].
    by eapply list_elem_of_lookup_2.
Qed.

Lemma toggleTodo_involutive_witness :
  Home.render (Home.toggleTodo "b") one_todo = one_todo.
Proof.
  apply (toggleTodo_involutive "b" one_todo).
  vm_compute. by intros [?|[]%elem_of_nil]%elem_of_cons.
Defined.

(** C4, as stated, fails: with two todos of id ["a"] in the list, which is
    what [loadTodos] returns for [stored_twins], removing ["a"] takes both
    away. *)
Lemma deleteTodo_removes_twins :
  loadTodos stored_twins = Return twins ∧
  Home.todos (Home.render (Home.deleteTodo "a") two_todos) = [] ∧
  ¬ deletes_at_most_one "a" two_todos.
Proof.
  split_and!; [done|done|]. intros [Hlen _]. vm_compute in Hlen. lia.
Qed.

(** C4, amended: [deleteTodo] leaves exactly the todos whose id is not the
    given one, in the order they had, which is at most one todo fewer when
    the ids of the list are pairwise distinct; doing it again changes
    nothing more; and it changes nothing when no todo has the id. *)
Theorem deleteTodo_removes_matching (i : string) (st : Home.State) :
  let st' := Home.render (Home.deleteTodo i) st in
  selects (λ todo, Todo.id todo ≠ i) (Home.todos st) (Home.todos st') ∧
  (NoDup (ids (Home.todos st)) →
   length (Home.todos st) ≤ S (length (Home.todos st'))) ∧
  Home.render (Home.deleteTodo i) st' = st' ∧
  (i ∉ ids (Home.todos st) → st' = st) ∧
  Home.text st' = Home.text st ∧
  Home.filter st' = Home.filter st.
Proof.
  intros st'. subst st'. split_and!; try done.
  - apply selects_filter.
  - apply filter_unique_id.
  - apply State_eq; try done. rewrite !deleteTodo_todos. apply filter_idemp.
  - intros Hi. apply State_eq; try done. by apply filter_other_ids.
Qed.

Lemma deleteTodo_removes_matching_witness :
  length (Home.todos one_todo) ≤
    S (length (Home.todos (Home.render (Home.deleteTodo "a") one_todo))) ∧
  Home.render (Home.deleteTodo "b") one_todo = one_todo.
Proof.
  pose proof (deleteTodo_removes_matching "a" one_todo) as (_ & Hlen & _).
  pose proof (deleteTodo_removes_matching "b" one_todo) as (_ & _ & _ & Hid & _).
  split.
  - apply Hlen. vm_compute. apply NoDup_singleton.
  - apply Hid. vm_compute. by intros [?|[]%elem_of_nil]%elem_of_cons.
Defined.

(** C8: the view is the part of the list with [completed] false under
    [active], the part with [completed] true under [completed], the list
    itself under [all]; and choosing a filter changes neither the list nor
    what is stored. *)
Theorem filteredTodos_view (st : Home.State) :
  match Home.filter st with
  | Filter.active =>
      selects (λ todo, Todo.completed todo = false)
        (Home.todos st) (Home.filteredTodos st)
  | Filter.completed =>
      selects (λ todo, Todo.completed todo = true)
        (Home.todos st) (Home.filteredTodos st)
  | Filter.all => Home.filteredTodos st = Home.todos st
  end ∧
  ∀ (w : Home.world) (key : Filter),
    Home.todos (Home.page (Home.step w (Home.Select key))) =
      Home.todos (Home.page w) ∧
    Home.env (Home.step w (Home.Select key)) = Home.env w.
Proof.
  split; [|done].
  unfold Home.filteredTodos. destruct (Home.filter st); [done| |].
  - rewrite filter_not_completed. apply selects_filter.
  - rewrite filter_completed. apply selects_filter.
Qed.

(** C10: toggling keeps the length and the order of the list; at every
    position the todo keeps its [id], [text] and [createdAt], and its
    properties outside the interface; it is the same todo when its id is
    not the toggled one, and has its [completed] negated otherwise.  The
    input and the filter are not touched. *)
Theorem toggleTodo_frame (i : string) (st : Home.State) :
  let st' := Home.render (Home.toggleTodo i) st in
  length (Home.todos st') = length (Home.todos st) ∧
  (∀ n todo, Home.todos st !! n = Some todo →
     ∃ todo', Home.todos st' !! n = Some todo' ∧
       Todo.id todo' = Todo.id todo ∧
       Todo.text todo' = Todo.text todo ∧
       Todo.createdAt todo' = Todo.createdAt todo ∧
       Todo.rest todo' = Todo.rest todo ∧
       (Todo.id todo ≠ i → todo' = todo) ∧
       (Todo.id todo = i →
        Todo.completed todo' = negb (Todo.completed todo))) ∧
  Home.text st' = Home.text st ∧
  Home.filter st' = Home.filter st.
Proof.
  intros st'. subst st'. rewrite toggleTodo_todos.
  split_and!; try done.
  - apply length_fmap.
  - intros n todo Hn. exists (flip_if i todo).
    split; [by rewrite list_lookup_fmap, Hn|].
    unfold flip_if. case_decide; simpl; split_and!; done.
Qed.

(** ** Loading and saving *)

Lemma null_or_not (v : value) : v = VNull ∨ v ≠ VNull.
Proof. destruct v; auto. Qed.

Lemma null_element_or_not (a : list value) : VNull ∈ a ∨ VNull ∉ a.
Proof.
  induction a as [|v a [IH|IH]].
  - right. apply not_elem_of_nil.
  - left. by right.
  - destruct (null_or_not v) as [->|Hv].
    + left. by left.
    + right. by intros [?|?]%elem_of_cons.
Qed.

(** On anything but [null], the filter callback of [loadTodos] does not
    throw, and accepts exactly the objects that [as_Todo] reads. *)
Lemma is_Todo_as_Todo (v : value) :
  v ≠ VNull → is_Todo v = Return (bool_decide (is_Some (as_Todo v))).
Proof.
  intros Hnull. destruct v as [|b|n|s|a|o]; try done.
  unfold is_Todo, as_Todo, typeof_is, and_then, get; simpl.
  destruct (o !! "id") as [[]|]; simpl; try done;
  destruct (o !! "text") as [[]|]; simpl; try done;
  destruct (o !! "completed") as [[]|]; simpl; try done;
  destruct (o !! "createdAt") as [[]|]; simpl; done.
Qed.

Lemma is_Todo_null : is_Todo VNull = Throw TypeError.
Proof. reflexivity. Qed.

Lemma Array_filter_is_Todo (a : list value) :
  VNull ∉ a →
  Array_filter is_Todo a = Return (filter (λ v, is_Some (as_Todo v)) a).
Proof.
  induction a as [|v a IH]; [done|].
  intros [Hv Ha]%not_elem_of_cons. simpl.
  rewrite is_Todo_as_Todo, (IH Ha) by done. simpl.
  rewrite filter_cons. by case_bool_decide; case_decide.
Qed.

Lemma Array_filter_null (a : list value) :
  VNull ∈ a → Array_filter is_Todo a = Throw TypeError.
Proof.
  induction a as [|v a IH]; [by intros ?%elem_of_nil|].
  destruct (null_or_not v) as [->|Hv]; [done|].
  intros [?|Ha]%elem_of_cons; [done|]. simpl.
  by rewrite is_Todo_as_Todo, (IH Ha).
Qed.

(** [loadTodos] in a browser, by what is stored under the key. *)
Lemma loadTodos_absent (ls : gmap string stored) :
  ls !! STORAGE_KEY = None → loadTodos (Browser ls) = Return [].
Proof. intros H. unfold loadTodos. by rewrite H. Qed.

Lemma loadTodos_unreadable (ls : gmap string stored) (s : stored) :
  ls !! STORAGE_KEY = Some s → s = Blank ∨ s = Garbage →
  loadTodos (Browser ls) = Return [].
Proof. intros H [->| ->]; unfold loadTodos; by rewrite H. Qed.

Lemma loadTodos_not_array (ls : gmap string stored) (v : value) :
  ls !! STORAGE_KEY = Some (Doc v) → Array_isArray v = false →
  loadTodos (Browser ls) = Return [].
Proof. intros H Hv. unfold loadTodos. rewrite H. simpl. by rewrite Hv. Qed.

(** An element that reads as a todo reads as its record. *)
Lemma as_Todo_record_of (v : value) (todo : Todo) :
  as_Todo v = Some todo → todo = record_of v.
Proof.
  destruct v as [| | | | |o]; try done. unfold as_Todo.
  destruct (o !! "id") as [[]|]; try done;
  destruct (o !! "text") as [[]|]; try done;
  destruct (o !! "completed") as [[]|]; try done;
  destruct (o !! "createdAt") as [[]|]; try done.
  by intros [= <-].
Qed.

Lemma record_of_kept (a : list value) :
  record_of <$> filter (λ v, is_Some (as_Todo v)) a = omap as_Todo a.
Proof.
  induction a as [|v a IH]; [done|].
  rewrite filter_cons, omap_cons. case_decide as Hv.
  - destruct Hv as [todo Hv]. rewrite Hv, fmap_cons, IH.
    by rewrite (as_Todo_record_of v todo).
  - destruct (as_Todo v) eqn:Hv'; [|done]. by destruct Hv.
Qed.

Lemma loadTodos_array (ls : gmap string stored) (a : list value) :
  ls !! STORAGE_KEY = Some (Doc (VArray a)) → VNull ∉ a →
  loadTodos (Browser ls) = Return (omap as_Todo a).
Proof.
  intros H Ha. unfold loadTodos. rewrite H. simpl.
  rewrite Array_filter_is_Todo by done. simpl.
  by rewrite record_of_kept.
Qed.

(** A [null] among the elements: the callback throws, the [catch] returns
    the empty list. *)
Lemma loadTodos_array_null (ls : gmap string stored) (a : list value) :
  ls !! STORAGE_KEY = Some (Doc (VArray a)) → VNull ∈ a →
  loadTodos (Browser ls) = Return [].
Proof.
  intros H Ha. unfold loadTodos. rewrite H. simpl.
  by rewrite Array_filter_null.
Qed.

(** [loadTodos] never throws. *)
Lemma loadTodos_returns (h : host) : ∃ L, loadTodos h = Return L.
Proof.
  destruct h as [|ls]; [by eexists|].
  destruct (ls !! STORAGE_KEY) as [[| |v]|] eqn:H.
  - eexists. eapply loadTodos_unreadable; eauto.
  - eexists. eapply loadTodos_unreadable; eauto.
  - destruct (Array_isArray v) eqn:Hv.
    + destruct v as [| | | |a|]; try done.
      destruct (null_element_or_not a).
      * eexists. by eapply loadTodos_array_null.
      * eexists. by eapply loadTodos_array.
    + eexists. by eapply loadTodos_not_array.
  - eexists. by apply loadTodos_absent.
Qed.

(** *** Values *)

Lemma value_size_elem (a : list value) (x : value) :
  x ∈ a → value_size x < value_size (VArray a).
Proof. simpl. induction 1 as [x a|x y a _ IH]; simpl; lia. Qed.

Lemma value_size_lookup (o : gmap string value) (k : string) (x : value) :
  o !! k = Some x → value_size x < value_size (VObject o).
Proof.
  simpl. intros H. apply Nat.lt_succ_r. revert k x H.
  apply (map_fold_weak_ind (λ r (m : gmap string value),
           ∀ k x, m !! k = Some x → value_size x ≤ r)).
  - intros k x. by rewrite lookup_empty.
  - intros i y m r Hi IH k x. rewrite lookup_insert. case_decide.
    + intros [= ->]. lia.
    + intros H'. specialize (IH _ _ H'). lia.
Qed.

(** Induction on a value, through its arrays and objects. *)
Lemma value_nested_ind (P : value → Prop) :
  P VNull →
  (∀ b, P (VBool b)) →
  (∀ n, P (VNumber n)) →
  (∀ s, P (VString s)) →
  (∀ a, Forall P a → P (VArray a)) →
  (∀ o, map_Forall (λ _, P) o → P (VObject o)) →
  ∀ v, P v.
Proof.
  intros Hnull Hbool Hnum Hstr Harr Hobj v.
  remember (value_size v) as n eqn:Hn. revert v Hn.
  induction n as [n IH] using lt_wf_ind. intros v ->.
  destruct v as [|b|m|s|a|o]; auto.
  - apply Harr, Forall_forall. intros x Hx.
    eapply IH; [|reflexivity]. by apply value_size_elem.
  - apply Hobj. intros k x Hk.
    eapply IH; [|reflexivity]. by eapply value_size_lookup.
Qed.

Lemma exact_numbers_object (o : gmap string value) :
  exact_numbers (VObject o) = true ↔
  map_Forall (λ _ v, exact_numbers v = true) o.
Proof.
  simpl.
  apply (map_fold_weak_ind (λ r (m : gmap string value),
           r = true ↔ map_Forall (λ _ v, exact_numbers v = true) m)).
  - split; [intros _; apply map_Forall_empty | done].
  - intros i y m r Hi IH. rewrite andb_true_iff, IH.
    by rewrite map_Forall_insert.
Qed.

Lemma exact_numbers_array (a : list value) :
  exact_numbers (VArray a) = true ↔ Forall (λ v, exact_numbers v = true) a.
Proof.
  simpl. rewrite forallb_forall, Forall_forall.
  by setoid_rewrite list_elem_of_In.
Qed.

(** A value with exact numbers is written as it is. *)
Lemma json_of_value_exact (v : value) :
  exact_numbers v = true → json_of_value v = v.
Proof.
  induction v as [|b|n|s|a IH|o IH] using value_nested_ind; try done.
  - by destruct n.
  - intros Ha%exact_numbers_array. simpl. f_equal.
    rewrite <- (list_fmap_id a) at 2. apply list_fmap_ext.
    intros i x Hx. simpl.
    eapply Forall_lookup_1 in IH; [|done].
    eapply Forall_lookup_1 in Ha; [|done]. auto.
  - intros Ho%exact_numbers_object. simpl. f_equal.
    rewrite <- (map_fmap_id o) at 2. apply map_fmap_ext.
    intros k x Hk. simpl. apply (IH k x Hk), (Ho k x Hk).
Qed.

(** What is written has exact numbers. *)
Lemma exact_json_of_value (v : value) : exact_numbers (json_of_value v) = true.
Proof.
  induction v as [|b|n|s|a IH|o IH] using value_nested_ind; try done.
  - by destruct n.
  - change (exact_numbers (VArray (json_of_value <$> a)) = true).
    apply exact_numbers_array, Forall_fmap.
    eapply Forall_impl; [exact IH|]. done.
  - change (exact_numbers (VObject (json_of_value <$> o)) = true).
    apply exact_numbers_object. intros k y.
    rewrite lookup_fmap. destruct (o !! k) as [x|] eqn:Hk; [|done].
    intros [= <-]. by apply (IH k x).
Qed.

(** *** Objects and records *)

Lemma others_insert (o : gmap string value) (a b c d : value) :
  others (<["id" := a]> (<["text" := b]>
            (<["completed" := c]> (<["createdAt" := d]> o)))) =
  others o.
Proof.
  unfold others. apply map_eq. intros k.
  rewrite !lookup_delete, !lookup_insert.
  by repeat case_decide.
Qed.

Lemma others_idemp (o : gmap string value) : others (others o) = others o.
Proof.
  unfold others. apply map_eq. intros k.
  rewrite !lookup_delete. by repeat case_decide.
Qed.

Lemma others_fmap (f : value → value) (o : gmap string value) :
  others (f <$> o) = f <$> others o.
Proof. unfold others. by rewrite !fmap_delete. Qed.

Lemma others_lookup (o : gmap string value) (k : string) (x : value) :
  others o !! k = Some x → o !! k = Some x.
Proof.
  unfold others. rewrite !lookup_delete. by repeat case_decide.
Qed.

Lemma proper_record_of (v : value) : proper (record_of v).
Proof. apply others_idemp. Qed.

Lemma interface_insert (o : gmap string value) (a b c d : value) :
  let m := <["id" := a]> (<["text" := b]>
             (<["completed" := c]> (<["createdAt" := d]> o))) in
  m !! "id" = Some a ∧ m !! "text" = Some b ∧
  m !! "completed" = Some c ∧ m !! "createdAt" = Some d.
Proof.
  simpl. rewrite !lookup_insert. by repeat case_decide.
Qed.

(** The record of an element that the callback keeps is the element. *)
Lemma object_of_record_of (v : value) :
  is_Todo v = Return true → object_of (record_of v) = v.
Proof.
  destruct (null_or_not v) as [->|Hv]; [done|].
  rewrite is_Todo_as_Todo by done. intros [= Hsome].
  apply bool_decide_eq_true in Hsome.
  destruct v as [| | | | |o]; try by destruct Hsome.
  unfold as_Todo in Hsome. unfold object_of, record_of; simpl.
  destruct (o !! "id") as [[| | |i| |]|] eqn:Hi; try by destruct Hsome.
  destruct (o !! "text") as [[| | |t| |]|] eqn:Ht; try by destruct Hsome.
  destruct (o !! "completed") as [[|c| | | |]|] eqn:Hc; try by destruct Hsome.
  destruct (o !! "createdAt") as [[| |n| | |]|] eqn:Hn; try by destruct Hsome.
  f_equal. apply map_eq. intros k. unfold others.
  rewrite !lookup_insert, !lookup_delete.
  repeat case_decide; by subst.
Qed.

(** The objects of the todos that [loadTodos] returns are the elements that
    the callback keeps, as they are stored. *)
Lemma object_of_kept (a : list value) :
  VNull ∉ a →
  object_of <$> omap as_Todo a = filter (λ v, is_Some (as_Todo v)) a.
Proof.
  induction a as [|v a IH]; [done|].
  intros [Hv Ha]%not_elem_of_cons.
  rewrite omap_cons, filter_cons. case_decide as Hsome.
  - destruct Hsome as [todo Htodo]. rewrite Htodo, fmap_cons, (IH Ha).
    f_equal. rewrite (as_Todo_record_of v todo Htodo).
    apply object_of_record_of. rewrite is_Todo_as_Todo by done.
    f_equal. apply bool_decide_eq_true. by exists todo.
  - destruct (as_Todo v) eqn:Hread; [|by apply IH]. by destruct Hsome.
Qed.

(** The record of the object of a proper record is the record. *)
Lemma record_of_object_of (todo : Todo) :
  proper todo → record_of (object_of todo) = todo.
Proof.
  intros Hp. destruct todo as [i t c n r]. unfold proper in Hp; simpl in Hp.
  unfold record_of, object_of; simpl.
  destruct (interface_insert r (VString i) (VString t) (VBool c) (VNumber n))
    as (-> & -> & -> & ->).
  by rewrite others_insert, Hp.
Qed.

Lemma json_of_Todo_object (todo : Todo) :
  json_of_Todo todo =
  VObject (<["id" := VString (Todo.id todo)]>
           (<["text" := VString (Todo.text todo)]>
            (<["completed" := VBool (Todo.completed todo)]>
             (<["createdAt" := json_of_number (Todo.createdAt todo)]>
              (json_of_value <$> Todo.rest todo))))).
Proof.
  unfold json_of_Todo, object_of. simpl. by rewrite !fmap_insert.
Qed.

Lemma as_Todo_json_of_Todo (todo : Todo) :
  as_Todo (json_of_Todo todo) = reread todo.
Proof.
  rewrite json_of_Todo_object. unfold as_Todo, record_of.
  destruct (interface_insert (json_of_value <$> Todo.rest todo)
              (VString (Todo.id todo)) (VString (Todo.text todo))
              (VBool (Todo.completed todo))
              (json_of_number (Todo.createdAt todo)))
    as (-> & -> & -> & ->).
  rewrite others_insert, others_fmap. unfold reread, reread_rest.
  by destruct (Todo.createdAt todo).
Qed.

Lemma json_of_Todo_not_null (L : list Todo) : VNull ∉ json_of_Todo <$> L.
Proof. by intros (todo & ? & _)%list_elem_of_fmap. Qed.

Lemma JSON_stringify_array (L : list Todo) :
  JSON_stringify L = Doc (VArray (json_of_Todo <$> L)).
Proof.
  unfold JSON_stringify. simpl. by rewrite <- list_fmap_compose.
Qed.

(** What a load finds after a save, for any list. *)
Lemma load_save (L : list Todo) (ls : gmap string stored) :
  loadTodos (Home.save L (Browser ls)) = Return (omap reread L).
Proof.
  unfold Home.save. rewrite JSON_stringify_array.
  rewrite (loadTodos_array _ (json_of_Todo <$> L)).
  - f_equal. induction L as [|todo L IH]; [done|].
    by rewrite fmap_cons, !omap_cons, as_Todo_json_of_Todo, IH.
  - apply lookup_insert_eq.
  - apply json_of_Todo_not_null.
Qed.

(** A proper and exact todo is read back as it is, and what is read back is
    proper and exact. *)
Lemma reread_exact (todo : Todo) :
  proper todo → exact_todo todo → reread todo = Some todo.
Proof.
  intros Hp [Hn Hr]. destruct todo as [i t c n r]. unfold proper in Hp.
  simpl in *. unfold reread, reread_rest; simpl. rewrite Hp.
  assert (json_of_value <$> r = r) as ->.
  { rewrite <- (map_fmap_id r) at 2. apply map_fmap_ext.
    intros k x Hk. apply json_of_value_exact, (Hr k x Hk). }
  by destruct n.
Qed.

Lemma reread_proper_exact (todo todo' : Todo) :
  reread todo = Some todo' → proper todo' ∧ exact_todo todo'.
Proof.
  assert (proper
            {| Todo.id := Todo.id todo; Todo.text := Todo.text todo;
               Todo.completed := Todo.completed todo;
               Todo.createdAt := Int 0; Todo.rest := reread_rest todo |})
    as Hp.
  { unfold proper, reread_rest; simpl. by rewrite others_fmap, others_idemp. }
  assert (map_Forall (λ _ v, exact_numbers v = true) (reread_rest todo))
    as Hr.
  { intros k y. unfold reread_rest. rewrite lookup_fmap.
    destruct (others (Todo.rest todo) !! k); [|done].
    intros [= <-]. apply exact_json_of_value. }
  unfold reread. destruct (Todo.createdAt todo); try done;
    intros [= <-]; by repeat split.
Qed.

Lemma omap_reread_exact (L : list Todo) :
  Forall proper L → Forall exact_todo L → omap reread L = L.
Proof.
  induction 1 as [|todo L Hp _ IH]; [done|].
  intros [He HL]%Forall_cons. by rewrite omap_cons, reread_exact, IH.
Qed.

Lemma omap_reread_proper_exact (L : list Todo) :
  Forall proper (omap reread L) ∧ Forall exact_todo (omap reread L).
Proof.
  split; apply Forall_forall;
    intros todo' (todo & _ & H)%list_elem_of_omap;
    by apply reread_proper_exact in H as [? ?].
Qed.

(** C5, as stated, fails.  [late] is a list the page can hold: it is what
    [loadTodos] returns for a stored [createdAt] of [1e999].  Saving writes
    that [createdAt] as [null], and the next [loadTodos] drops the todo.  A
    number in another property is written in the same way: [noted] comes
    back with [note] [null]. *)
Lemma round_trip_loses_infinity :
  loadTodos
    (Browser {[ STORAGE_KEY :=
      Doc (VArray [ VObject {[ "id" := VString "a"; "text" := VString "milk";
                               "completed" := VBool false;
                               "createdAt" := VNumber PosInfinity ]} ]) ]}) =
    Return [late] ∧
  loadTodos (Home.save [late] (Browser ∅)) = Return [] ∧
  ¬ round_trip [late] ∅ ∧
  loadTodos (Home.save [noted] (Browser ∅)) = Return [noted_null] ∧
  ¬ round_trip [noted] ∅.
Proof.
  split_and!; [done|done| |done|]; intros H; by vm_compute in H.
Qed.

(** C5, amended: in a browser, a list of todos in which every number is
    finite and not [-0], the [createdAt] and the numbers in the other
    properties of a todo, is loaded as it was saved. *)
Theorem load_after_save (L : list Todo) (ls : gmap string stored) :
  Forall proper L →
  Forall exact_todo L →
  loadTodos (Home.save L (Browser ls)) = Return L.
Proof. intros Hp He. by rewrite load_save, omap_reread_exact. Qed.

Lemma load_after_save_witness :
  loadTodos (Home.save (tagged :: twins) (Browser ∅)) =
  Return (tagged :: twins).
Proof.
  apply load_after_save.
  - by repeat constructor.
  - repeat constructor; try done; by apply exact_numbers_object.
Defined.

(** C6: the claim does not hold of the code at a stored array with a
    [null] among its elements.  The callback drops a number, a string, an
    array and an object without the properties one by one, and the
    well-typed element next to them is loaded; on [null] it throws, at
    [todo.id], and [loadTodos] returns the empty list, without the
    well-typed element that is stored next to the [null]. *)
Lemma loadTodos_null_drops_all :
  loadTodos (Browser {[ STORAGE_KEY := Doc (VArray junk_and_milk) ]}) =
    Return (omap as_Todo junk_and_milk) ∧
  length (omap as_Todo junk_and_milk) = 1 ∧
  is_Todo VNull = Throw TypeError ∧
  length (omap as_Todo null_and_milk) = 1 ∧
  loadTodos (Browser {[ STORAGE_KEY := Doc (VArray null_and_milk) ]}) =
    Return [] ∧
  ¬ drops_only_bad {[ STORAGE_KEY := Doc (VArray null_and_milk) ]}.
Proof.
  split_and!; try done.
  intros [_ H]. by specialize (H null_and_milk eq_refl).
Qed.

(** X19: [loadTodos] returns the empty list, and does not throw, when what
    is stored is not JSON text or is the text of something that is not an
    array; and when it is the text of an array with no [null] among its
    elements, [loadTodos] returns, without throwing, the elements that have
    the four properties with their types, each with all its properties, in
    the order they are stored. *)
Theorem loadTodos_fails_soft (ls : gmap string stored) :
  (∀ s, ls !! STORAGE_KEY = Some s →
     s = Blank ∨ s = Garbage ∨ (∃ v, s = Doc v ∧ Array_isArray v = false) →
     loadTodos (Browser ls) = Return []) ∧
  (∀ a, ls !! STORAGE_KEY = Some (Doc (VArray a)) → VNull ∉ a →
     loadTodos (Browser ls) = Return (omap as_Todo a)).
Proof.
  split.
  - intros s H [->|[->|(v & -> & Hv)]].
    + eapply loadTodos_unreadable; eauto.
    + eapply loadTodos_unreadable; eauto.
    + by eapply loadTodos_not_array.
  - intros a. apply loadTodos_array.
Qed.

Lemma loadTodos_fails_soft_witness :
  loadTodos (Browser {[ STORAGE_KEY := Garbage ]}) = Return [] ∧
  loadTodos (Browser {[ STORAGE_KEY := Doc (VObject ∅) ]}) = Return [] ∧
  loadTodos (Browser {[ STORAGE_KEY := Doc (VArray milk_and_bad) ]}) =
    Return [ {| Todo.id := "a"; Todo.text := "milk";
                Todo.completed := false; Todo.createdAt := Int 1;
                Todo.rest := ∅ |} ].
Proof.
  split_and!.
  - apply (loadTodos_fails_soft {[ STORAGE_KEY := Garbage ]}) with Garbage;
      [reflexivity | by right; left].
  - apply (loadTodos_fails_soft {[ STORAGE_KEY := Doc (VObject ∅) ]})
      with (Doc (VObject ∅)); [reflexivity|].
    right; right. by exists (VObject ∅).
  - apply (loadTodos_fails_soft {[ STORAGE_KEY := Doc (VArray milk_and_bad) ]})
      with (a := milk_and_bad); [reflexivity|].
    unfold milk_and_bad. rewrite !not_elem_of_cons. split_and!; try done.
    apply not_elem_of_nil.
Defined.

(** C9: on the server, [loadTodos] returns the empty list and the saving
    effect writes nothing, whatever the list: the host is as it was. *)
Theorem server_guard (L : list Todo) :
  loadTodos Server = Return [] ∧ Home.save L Server = Server.
Proof. done. Qed.

(** ** Ids *)

(** One event keeps the ids distinct, when the id it adds, if it adds one,
    is fresh. *)
Lemma step_unique_ids (w : Home.world) (e : Home.event) :
  NoDup (ids (Home.todos (Home.page w))) →
  fresh_ids w [e] →
  NoDup (ids (Home.todos (Home.page (Home.step w e)))).
Proof.
  intros HL [Hfresh _]. rewrite step_todos.
  destruct e as [env|value|i|i| |key]; simpl Home.handler.
  - unfold Home.handleSubmit. case_decide as Htrim; [done|].
    simpl. apply NoDup_cons. split; [by apply Hfresh | done].
  - done.
  - by rewrite toggleTodo_todos, ids_toggle.
  - by apply NoDup_ids_filter.
  - by apply NoDup_ids_filter.
  - done.
Qed.

(** What is on the page after mounting is what [loadTodos] returned. *)
Lemma mount_todos (h : host) (w : Home.world) :
  Home.mount h = Return w → loadTodos h = Return (Home.todos (Home.page w)).
Proof.
  unfold Home.mount. destruct (loadTodos h) as [L|]; [|done].
  by intros [= <-].
Qed.

(** C7, as stated, fails, in two places.  [loadTodos] keeps stored todos
    that share an id, so the list the page starts from can have one id
    twice.  And [handleSubmit] puts in front the id that [createId]
    returns, whatever the ids of the list: on [typed_eggs], whose one id is
    the UUID of [uuid_host], a submit on [uuid_host] gives a list with that
    id twice. *)
Lemma startup_list_with_equal_ids :
  loadTodos stored_twins = Return twins ∧
  ¬ ids_always_unique ∧
  NoDup (ids (Home.todos typed_eggs)) ∧
  ¬ NoDup (ids (Home.todos
                  (Home.page
                     (Home.step
                        {| Home.page := typed_eggs; Home.env := Browser ∅ |}
                        (Home.Submit uuid_host))))).
Proof.
  split_and!.
  - done.
  - intros H. specialize (H stored_twins _ [] eq_refl).
    vm_compute in H. apply NoDup_cons in H as [Hin _].
    apply Hin. by left.
  - vm_compute. apply NoDup_singleton.
  - vm_compute. intros [Hin _]%NoDup_cons. apply Hin. by left.
Qed.

(** C7, amended: toggling, removing and clearing keep the ids of the list
    pairwise distinct, and so does adding when the id that [createId]
    returns is not in the list: from a list with pairwise distinct ids,
    every list reached by events that give fresh ids has pairwise distinct
    ids.  The list that the page starts from has pairwise distinct ids when
    the elements of the stored array that read as todos have. *)
Theorem unique_ids_preserved :
  (∀ (w : Home.world) (es : list Home.event),
     NoDup (ids (Home.todos (Home.page w))) →
     fresh_ids w es →
     NoDup (ids (Home.todos (Home.page (Home.run w es))))) ∧
  (∀ (h : host) (w : Home.world),
     Home.mount h = Return w →
     NoDup (stored_ids h) →
     NoDup (ids (Home.todos (Home.page w)))).
Proof.
  split.
  - intros w es. revert w.
    induction es as [|e es IH]; intros w HL Hfresh; [done|].
    destruct Hfresh as [He Hes]. apply IH; [|done].
    apply step_unique_ids; [done|]. by split.
  - intros h w Hw%mount_todos Hids.
    destruct h as [|ls]; [injection Hw as <-; apply NoDup_nil_2|].
    unfold stored_ids in Hids.
    destruct (ls !! STORAGE_KEY) as [[| |v]|] eqn:H.
    + rewrite (loadTodos_unreadable ls Blank) in Hw by auto.
      injection Hw as <-. apply NoDup_nil_2.
    + rewrite (loadTodos_unreadable ls Garbage) in Hw by auto.
      injection Hw as <-. apply NoDup_nil_2.
    + destruct (Array_isArray v) eqn:Hv.
      * destruct v as [| | | |a|]; try done.
        destruct (null_element_or_not a) as [Hnull|Hnull].
        -- rewrite (loadTodos_array_null ls a) in Hw by done.
           injection Hw as <-. apply NoDup_nil_2.
        -- rewrite (loadTodos_array ls a) in Hw by done.
           by injection Hw as <-.
      * rewrite (loadTodos_not_array ls v) in Hw by done.
        injection Hw as <-. apply NoDup_nil_2.
    + rewrite loadTodos_absent in Hw by done.
      injection Hw as <-. apply NoDup_nil_2.
Qed.

Lemma unique_ids_preserved_witness :
  NoDup (ids (Home.todos (Home.page (Home.run empty_page session)))) ∧
  NoDup (ids (Home.todos (Home.page (mounted (Browser ∅))))).
Proof.
  split.
  - apply (proj1 unique_ids_preserved).
    + apply NoDup_nil_2.
    + simpl. split_and!; try done.
      * intros _. apply not_elem_of_nil.
      * intros _. vm_compute. by intros [?|?%elem_of_nil]%elem_of_cons.
      * intros _. vm_compute. by intros [?|?%elem_of_nil]%elem_of_cons.
  - apply (proj2 unique_ids_preserved (Browser ∅)); [reflexivity|].
    apply NoDup_nil_2.
Defined.

(** ** The page and the store together *)

(** After a queue that sets the list, what is stored is the new list. *)
Lemma commit_saves (queue : list Home.update) (w : Home.world) :
  existsb Home.sets_todos queue = true →
  Home.env (Home.commit queue w) =
  Home.save (Home.todos (Home.page (Home.commit queue w))) (Home.env w).
Proof. intros H. unfold Home.commit. simpl. by rewrite H. Qed.

(** In a browser, a reload after toggling, removing or clearing finds the
    list of the page, as far as [JSON] can write it. *)
Lemma reload_after_step (w : Home.world) (e : Home.event) (ls : gmap string stored) :
  Home.env w = Browser ls →
  match e with
  | Home.Toggle _ | Home.Remove _ | Home.Clear => True
  | _ => False
  end →
  loadTodos (Home.env (Home.step w e)) =
  Return (omap reread (Home.todos (Home.page (Home.step w e)))).
Proof.
  intros Hls He. unfold Home.step.
  rewrite commit_saves, Hls by by destruct e.
  apply load_save.
Qed.

(** ** Two scenarios *)

(** Nothing stored; "Buy milk" is typed and submitted. *)
Example scenario_first_todo :
  let w := Home.run empty_page [Home.Change "Buy milk"; Home.Submit uuid_host] in
  loadTodos (Browser ∅) = Return [] ∧
  Home.todos (Home.page w) =
    [ {| Todo.id := "0b0e7b1c-5a52-4e6f-9d6e-3f1d2c4b5a69";
         Todo.text := "Buy milk";
         Todo.completed := false;
         Todo.createdAt := Int 1700000000000; Todo.rest := ∅ |} ] ∧
  Home.stats (Home.page w) =
    {| Home.total := 1; Home.completed := 0; Home.remaining := 1 |} ∧
  loadTodos (Home.env w) = Return (Home.todos (Home.page w)).
Proof. by vm_compute. Qed.

(** A stored todo with properties outside the interface is on the page
    with them, keeps them when it is toggled, and is stored with them. *)
Example scenario_other_properties :
  let w := Home.run (mounted stored_tagged) [Home.Toggle "t"] in
  Home.todos (Home.page (mounted stored_tagged)) = [tagged; eggs] ∧
  Todo.rest <$> Home.todos (Home.page w) = [Todo.rest tagged; ∅] ∧
  Todo.completed <$> Home.todos (Home.page w) = [false; true] ∧
  loadTodos (Home.env w) = Return (Home.todos (Home.page w)).
Proof. by vm_compute. Qed.

(** Two todos, one of them completed, under each filter, and after
    "Clear completed". *)
Example scenario_filters :
  let st f := {| Home.todos := twins; Home.text := ""; Home.filter := f |} in
  Todo.text <$> Home.filteredTodos (st Filter.active) = ["milk"] ∧
  Todo.text <$> Home.filteredTodos (st Filter.completed) = ["eggs"] ∧
  Todo.text <$> Home.filteredTodos (st Filter.all) = ["milk"; "eggs"] ∧
  Todo.text <$>
    Home.todos (Home.render Home.clearCompleted (st Filter.completed)) =
    ["milk"].
Proof. by vm_compute. Qed.

(** ** Counts *)

Lemma length_filter_split {A} (P : A → Prop) `{!∀ x, Decision (P x)} (l : list A) :
  length (filter P l) + length (filter (λ x, ¬ P x) l) = length l.
Proof. by rewrite <- length_app, filter_app_complement. Qed.

Lemma filter_not_completed' (L : list Todo) :
  filter (λ todo, Is_true (negb (Todo.completed todo))) L =
  filter (λ todo, ¬ Is_true (Todo.completed todo)) L.
Proof.
  apply list_filter_iff. intros todo. by destruct (Todo.completed todo); simpl; naive_solver.
Qed.

Lemma stats_sum (st : Home.State) :
  Home.completed (Home.stats st) + Home.remaining (Home.stats st) =
  Home.total (Home.stats st).
Proof.
  unfold Home.stats; simpl.
  pose proof (length_filter (λ todo, Is_true (Todo.completed todo)) (Home.todos st)).
  lia.
Qed.

Lemma stats_remaining (st : Home.State) :
  Home.remaining (Home.stats st) =
  length (filter (λ todo, Is_true (negb (Todo.completed todo))) (Home.todos st)).
Proof.
  unfold Home.stats; simpl. rewrite filter_not_completed'.
  pose proof (length_filter_split
                (λ todo, Is_true (Todo.completed todo)) (Home.todos st)) as H.
  cbv beta in H. lia.
Qed.

(** X1: the summary counts the two views.  The completed todos followed by
    the active ones are the list, up to order; [total] is the length of the
    list, [remaining] the number of todos shown under [active], [completed]
    the number shown under [completed], and the two add up to [total]. *)
Theorem stats_count_the_views (st : Home.State) :
  let active :=
    Home.filteredTodos (Home.render [Home.setFilter Filter.active] st) in
  let ticked :=
    Home.filteredTodos (Home.render [Home.setFilter Filter.completed] st) in
  ticked ++ active ≡ₚ Home.todos st ∧
  Home.total (Home.stats st) = length (Home.todos st) ∧
  Home.remaining (Home.stats st) = length active ∧
  Home.completed (Home.stats st) = length ticked ∧
  Home.completed (Home.stats st) + Home.remaining (Home.stats st) =
    Home.total (Home.stats st).
Proof.
  intros active ticked. subst active ticked. split_and!.
  - unfold Home.filteredTodos; simpl. rewrite filter_not_completed'.
    apply filter_app_complement.
  - done.
  - apply stats_remaining.
  - done.
  - apply stats_sum.
Qed.

Lemma filter_completed_of_active (L : list Todo) :
  filter (λ todo, Is_true (Todo.completed todo))
    (filter (λ todo, Todo.completed todo = false) L) = [].
Proof.
  induction L as [|todo L IH]; [done|].
  rewrite filter_cons. case_decide as H; [|done].
  rewrite filter_cons_False; [exact IH|].
  intros Hc. by rewrite H in Hc.
Qed.

Lemma stats_completed (st : Home.State) :
  Home.completed (Home.stats st) =
  length (filter (λ todo, Is_true (Todo.completed todo)) (Home.todos st)).
Proof. reflexivity. Qed.

(** X2: after "Clear completed" no todo is completed: the count of
    completed todos is zero, the view under [completed] is empty, the
    remaining count is what it was and is now the total, and clearing again
    changes nothing. *)
Theorem clearCompleted_leaves_none_completed (st : Home.State) :
  let st' := Home.render Home.clearCompleted st in
  Home.completed (Home.stats st') = 0 ∧
  Home.remaining (Home.stats st') = Home.remaining (Home.stats st) ∧
  Home.total (Home.stats st') = Home.remaining (Home.stats st) ∧
  Home.filteredTodos (Home.render [Home.setFilter Filter.completed] st') = [] ∧
  Home.render Home.clearCompleted st' = st'.
Proof.
  intros st'. subst st'.
  set (st' := Home.render Home.clearCompleted st).
  assert (Home.completed (Home.stats st') = 0) as Hnone.
  { rewrite stats_completed. subst st'.
    by rewrite clearCompleted_todos, filter_completed_of_active. }
  assert (Home.total (Home.stats st') = Home.remaining (Home.stats st)) as Htotal.
  { rewrite stats_remaining, filter_not_completed.
    subst st'. by rewrite <- clearCompleted_todos. }
  split_and!; try done.
  - pose proof (stats_sum st'). lia.
  - change (filter (λ todo, Is_true (Todo.completed todo)) (Home.todos st') = []).
    subst st'. by rewrite clearCompleted_todos, filter_completed_of_active.
  - apply State_eq; try done. subst st'.
    rewrite !clearCompleted_todos. apply filter_idemp.
Qed.

Lemma flip_if_others (i : string) (L : list Todo) :
  i ∉ ids L → flip_if i <$> L = L.
Proof.
  intros Hi. rewrite <- (list_fmap_id L) at 2.
  apply list_fmap_ext. intros n todo Hn. apply flip_if_other.
  intros <-. apply Hi, list_elem_of_fmap. exists todo.
  split; [done|]. by eapply list_elem_of_lookup_2.
Qed.

(** With pairwise distinct ids, the list around the todo at position [n]
    holds no todo of its id. *)
Lemma unique_id_split (L : list Todo) (n : nat) (todo : Todo) :
  NoDup (ids L) → L !! n = Some todo →
  (L = take n L ++ todo :: drop (S n) L) ∧
  (Todo.id todo ∉ ids (take n L)) ∧
  (Todo.id todo ∉ ids (drop (S n) L)).
Proof.
  intros HL Hn. pose proof (take_drop_middle L n todo Hn) as Hsplit.
  split; [done|]. rewrite <- Hsplit in HL. unfold ids in *.
  rewrite fmap_app, fmap_cons in HL.
  apply NoDup_app in HL as (_ & Hfront & [Hback _]%NoDup_cons).
  split; [|done]. intros Hin. apply (Hfront _ Hin). by left.
Qed.

Lemma toggleTodo_at (i : string) (L : list Todo) (n : nat) (todo : Todo) :
  NoDup (ids L) → L !! n = Some todo → Todo.id todo = i →
  flip_if i <$> L =
  take n L ++
  {| Todo.id := Todo.id todo; Todo.text := Todo.text todo;
     Todo.completed := negb (Todo.completed todo);
     Todo.createdAt := Todo.createdAt todo;
     Todo.rest := Todo.rest todo |} :: drop (S n) L.
Proof.
  intros HL Hn <-.
  destruct (unique_id_split L n todo HL Hn) as (Hsplit & Hfront & Hback).
  rewrite Hsplit at 1. rewrite fmap_app, fmap_cons.
  rewrite !flip_if_others by done.
  unfold flip_if. by case_decide.
Qed.

(** X3: when the ids of the list are pairwise distinct, toggling the id
    of a todo of the list moves exactly one todo between the two counts:
    from completed to remaining when it was completed, the other way when
    it was not.  The total stays. *)
Theorem toggleTodo_moves_one (i : string) (st : Home.State)
    (n : nat) (todo : Todo) :
  NoDup (ids (Home.todos st)) →
  Home.todos st !! n = Some todo →
  Todo.id todo = i →
  let s := Home.stats st in
  let s' := Home.stats (Home.render (Home.toggleTodo i) st) in
  Home.total s' = Home.total s ∧
  if Todo.completed todo
  then S (Home.completed s') = Home.completed s ∧
       Home.remaining s' = S (Home.remaining s)
  else Home.completed s' = S (Home.completed s) ∧
       S (Home.remaining s') = Home.remaining s.
Proof.
  intros HL Hn Hi s s'.
  assert (Home.total s' = Home.total s) as Htotal.
  { subst s s'. unfold Home.stats; simpl. apply length_fmap. }
  split; [done|].
  pose proof (stats_sum st) as Hsum.
  pose proof (stats_sum (Home.render (Home.toggleTodo i) st)) as Hsum'.
  fold s in Hsum. fold s' in Hsum'.
  assert (Home.completed s =
          length (filter (λ t, Is_true (Todo.completed t)) (Home.todos st)))
    as Hc by done.
  assert (Home.completed s' =
          length (filter (λ t, Is_true (Todo.completed t))
                    (flip_if i <$> Home.todos st))) as Hc' by done.
  rewrite (toggleTodo_at i _ n todo) in Hc' by done.
  rewrite <- (take_drop_middle _ n todo Hn) in Hc at 1.
  rewrite filter_app, filter_cons, length_app in Hc, Hc'. simpl in Hc, Hc'.
  destruct (Todo.completed todo); simpl in *;
    repeat case_decide; simpl in *; try done; lia.
Qed.

Lemma toggleTodo_moves_one_witness :
  let s := Home.stats milk_and_eggs in
  let s' := Home.stats (Home.render (Home.toggleTodo "b") milk_and_eggs) in
  Home.total s' = Home.total s ∧
  S (Home.completed s') = Home.completed s ∧
  Home.remaining s' = S (Home.remaining s).
Proof.
  apply (toggleTodo_moves_one "b" milk_and_eggs 1 eggs).
  - vm_compute. apply NoDup_cons. split.
    + by intros [?|?%elem_of_nil]%elem_of_cons.
    + apply NoDup_singleton.
  - reflexivity.
  - reflexivity.
Defined.

(** ** More on loading and saving *)


(** X4: [loadTodos] never throws, on any host; every todo it returns is
    read from an element of the array stored under the key; and when
    nothing is stored under the key it returns the empty list. *)
Theorem loadTodos_never_throws (h : host) :
  (∃ L, loadTodos h = Return L) ∧
  (∀ L todo, loadTodos h = Return L → todo ∈ L →
     ∃ ls a v, h = Browser ls ∧
       ls !! STORAGE_KEY = Some (Doc (VArray a)) ∧
       v ∈ a ∧ as_Todo v = Some todo) ∧
  (∀ ls, h = Browser ls → ls !! STORAGE_KEY = None →
     loadTodos h = Return []).
Proof.
  split_and!.
  - apply loadTodos_returns.
  - intros L todo HL Hin. destruct h as [|ls].
    { injection HL as <-. by apply elem_of_nil in Hin. }
    destruct (ls !! STORAGE_KEY) as [[| |v]|] eqn:H.
    + rewrite (loadTodos_unreadable ls Blank) in HL by auto.
      injection HL as <-. by apply elem_of_nil in Hin.
    + rewrite (loadTodos_unreadable ls Garbage) in HL by auto.
      injection HL as <-. by apply elem_of_nil in Hin.
    + destruct (Array_isArray v) eqn:Hv.
      * destruct v as [| | | |a|]; try done.
        destruct (null_element_or_not a) as [Hnull|Hnull].
        -- rewrite (loadTodos_array_null ls a) in HL by done.
           injection HL as <-. by apply elem_of_nil in Hin.
        -- rewrite (loadTodos_array ls a) in HL by done.
           injection HL as <-.
           apply list_elem_of_omap in Hin as (x & Hx & Hread).
           by exists ls, a, x.
      * rewrite (loadTodos_not_array ls v) in HL by done.
        injection HL as <-. by apply elem_of_nil in Hin.
    + rewrite loadTodos_absent in HL by done.
      injection HL as <-. by apply elem_of_nil in Hin.
  - intros ls -> H. by apply loadTodos_absent.
Qed.

(** X5: one [null] among the elements of the stored array, wherever it
    stands, and [loadTodos] returns the empty list. *)
Theorem loadTodos_one_null_empties (ls : gmap string stored) (a : list value) :
  ls !! STORAGE_KEY = Some (Doc (VArray a)) →
  VNull ∈ a →
  loadTodos (Browser ls) = Return [].
Proof. apply loadTodos_array_null. Qed.

Lemma loadTodos_one_null_empties_witness :
  loadTodos (Browser {[ STORAGE_KEY := Doc (VArray null_and_milk) ]}) =
  Return [].
Proof.
  apply (loadTodos_one_null_empties _ null_and_milk); [reflexivity|].
  by left.
Defined.

(** X6: what a load finds after a save, for any list: the todos in
    order, without those whose [createdAt] is [NaN] or an infinity; in what
    is left, a [createdAt] of [-0] is read as [0], and in the other
    properties, at any depth, a number that is [NaN] or an infinity is read
    as [null] and [-0] as [0].  Every number of what is returned is finite
    and not [-0]. *)
Theorem save_then_load (L : list Todo) (ls : gmap string stored) :
  loadTodos (Home.save L (Browser ls)) = Return (omap reread L) ∧
  Forall exact_todo (omap reread L).
Proof.
  split.
  - apply load_save.
  - apply omap_reread_proper_exact.
Qed.

(** X7: what has been saved and loaded once is loaded as it is saved
    from then on, whatever else the store holds. *)
Theorem second_round_trip_is_exact (L L' : list Todo)
    (ls ls' : gmap string stored) :
  loadTodos (Home.save L (Browser ls)) = Return L' →
  loadTodos (Home.save L' (Browser ls')) = Return L'.
Proof.
  rewrite load_save. intros [= <-].
  rewrite load_save. f_equal.
  apply omap_reread_exact; apply omap_reread_proper_exact.
Qed.

Lemma second_round_trip_is_exact_witness :
  loadTodos (Home.save odd_times (Browser ∅)) = Return [zero_time] ∧
  loadTodos (Home.save [zero_time] (Browser ∅)) = Return [zero_time].
Proof.
  split; [reflexivity|].
  apply (second_round_trip_is_exact odd_times [zero_time] ∅ ∅). reflexivity.
Defined.

(** ** The page and the store, over a session *)

Lemma render_keeps_todos (queue : list Home.update) (st : Home.State) :
  existsb Home.sets_todos queue = false →
  Home.todos (Home.render queue st) = Home.todos st.
Proof.
  revert st. induction queue as [|u queue IH]; intros st; [done|].
  simpl. intros [Hu Hq]%orb_false_iff.
  unfold Home.render in *. simpl. rewrite IH by done. by destruct u.
Qed.

Lemma mount_world (h : host) (w : Home.world) :
  Home.mount h = Return w →
  ∃ L, loadTodos h = Return L ∧
    Home.page w =
      {| Home.todos := L; Home.text := ""; Home.filter := Filter.all |} ∧
    Home.env w = Home.save L (Home.save [] h).
Proof.
  unfold Home.mount. destruct (loadTodos h) as [L|]; [|done].
  intros [= <-]. by exists L.
Qed.

Lemma save_mirrored (st : Home.State) (h : host) :
  mirrored {| Home.page := st; Home.env := Home.save (Home.todos st) h |}.
Proof. destruct h; [done|]. apply lookup_insert_eq. Qed.

Lemma mount_mirrored (h : host) (w : Home.world) :
  Home.mount h = Return w → mirrored w.
Proof.
  intros (L & _ & Hpage & Henv)%mount_world.
  destruct w as [st e]; simpl in *. subst. apply save_mirrored.
Qed.

Lemma step_mirrored (w : Home.world) (e : Home.event) :
  mirrored w → mirrored (Home.step w e).
Proof.
  intros Hw. unfold Home.step, Home.commit.
  destruct (existsb Home.sets_todos (Home.handler e (Home.page w))) eqn:Hq.
  - apply save_mirrored.
  - unfold mirrored in *; simpl. by rewrite render_keeps_todos.
Qed.

Lemma run_mirrored (w : Home.world) (es : list Home.event) :
  mirrored w → mirrored (Home.run w es).
Proof.
  revert w. induction es as [|e es IH]; intros w Hw; [done|].
  apply IH. by apply step_mirrored.
Qed.

#[local] Instance same_elsewhere_refl : Reflexive same_elsewhere.
Proof. by intros []. Qed.

#[local] Instance same_elsewhere_trans : Transitive same_elsewhere.
Proof.
  intros [|a] [|b] [|c]; simpl; try done.
  intros Hab Hbc k Hk. by rewrite Hbc, Hab.
Qed.

Lemma save_same_elsewhere (L : list Todo) (h : host) :
  same_elsewhere h (Home.save L h).
Proof. destruct h; [done|]. intros k Hk. by apply lookup_insert_ne. Qed.

Lemma step_same_elsewhere (w : Home.world) (e : Home.event) :
  same_elsewhere (Home.env w) (Home.env (Home.step w e)).
Proof.
  unfold Home.step, Home.commit; simpl.
  destruct (existsb _ _); [apply save_same_elsewhere | reflexivity].
Qed.

Lemma run_same_elsewhere (w : Home.world) (es : list Home.event) :
  same_elsewhere (Home.env w) (Home.env (Home.run w es)).
Proof.
  revert w. induction es as [|e es IH]; intros w; [reflexivity|].
  etrans; [apply step_same_elsewhere | apply IH].
Qed.

Lemma mount_same_elsewhere (h : host) (w : Home.world) :
  Home.mount h = Return w → same_elsewhere h (Home.env w).
Proof.
  intros (L & _ & _ & ->)%mount_world.
  etrans; apply save_same_elsewhere.
Qed.

Lemma other_keys_exist (ls : gmap string stored) (w : Home.world)
    (es : list Home.event) :
  Home.mount (Browser ls) = Return w →
  ∃ ls', Home.env (Home.run w es) = Browser ls'.
Proof.
  intros Hw.
  assert (same_elsewhere (Browser ls) (Home.env (Home.run w es))) as H.
  { etrans; [by apply mount_same_elsewhere | apply run_same_elsewhere]. }
  destruct (Home.env (Home.run w es)) as [|ls']; [done|]. by exists ls'.
Qed.

(** X8: in a browser, from the first commit on and after every event,
    the item under the key is the text of the list that is on the page. *)
Theorem store_mirrors_the_list (h : host) (w : Home.world)
    (es : list Home.event) (ls : gmap string stored) :
  Home.mount h = Return w →
  Home.env (Home.run w es) = Browser ls →
  ls !! STORAGE_KEY =
    Some (JSON_stringify (Home.todos (Home.page (Home.run w es)))).
Proof.
  intros Hw Hls.
  pose proof (run_mirrored w es (mount_mirrored h w Hw)) as H.
  unfold mirrored in H. by rewrite Hls in H.
Qed.

Lemma store_mirrors_the_list_witness :
  let w := Home.run (mounted stored_twins) [Home.Toggle "a"; Home.Clear] in
  store_of (Home.env w) !! STORAGE_KEY =
  Some (JSON_stringify (Home.todos (Home.page w))).
Proof.
  apply (store_mirrors_the_list stored_twins (mounted stored_twins)
           [Home.Toggle "a"; Home.Clear]); reflexivity.
Defined.

(** X9: the page writes under its own key only: after the first commit
    and any events, every other key of [localStorage] holds what it held. *)
Theorem other_keys_untouched (ls : gmap string stored) (w : Home.world)
    (es : list Home.event) :
  Home.mount (Browser ls) = Return w →
  ∃ ls', Home.env (Home.run w es) = Browser ls' ∧
    ∀ k, k ≠ STORAGE_KEY → ls' !! k = ls !! k.
Proof.
  intros Hw.
  assert (same_elsewhere (Browser ls) (Home.env (Home.run w es))) as H.
  { etrans; [by apply mount_same_elsewhere | apply run_same_elsewhere]. }
  destruct (Home.env (Home.run w es)) as [|ls']; [done|]. by exists ls'.
Qed.

Lemma other_keys_untouched_witness :
  ∃ ls', Home.env (Home.run (mounted (Browser shared_store)) session) =
           Browser ls' ∧
    ∀ k, k ≠ STORAGE_KEY → ls' !! k = shared_store !! k.
Proof.
  apply (other_keys_untouched shared_store (mounted (Browser shared_store))
           session).
  reflexivity.
Defined.

Lemma load_stored (L : list Todo) (ls : gmap string stored) :
  ls !! STORAGE_KEY = Some (JSON_stringify L) →
  loadTodos (Browser ls) = Return (omap reread L).
Proof.
  intros H. rewrite <- (load_save L ls). unfold Home.save.
  by rewrite insert_id.
Qed.

Lemma Forall_filter_keeps {A} (P Q : A → Prop) `{!∀ x, Decision (Q x)}
    (l : list A) :
  Forall P l → Forall P (filter Q l).
Proof.
  rewrite !Forall_forall. intros HP x [_ Hx]%list_elem_of_filter. by apply HP.
Qed.

(** What every event keeps true of the todos of the list, when it is kept
    by negating [completed] and true of every todo without other
    properties and with an integer [createdAt], as [handleSubmit] makes
    them. *)
Lemma step_keeps (P : Todo → Prop) (w : Home.world) (e : Home.event) :
  (∀ todo, P todo →
     P {| Todo.id := Todo.id todo; Todo.text := Todo.text todo;
          Todo.completed := negb (Todo.completed todo);
          Todo.createdAt := Todo.createdAt todo;
          Todo.rest := Todo.rest todo |}) →
  (∀ i t now,
     P {| Todo.id := i; Todo.text := t; Todo.completed := false;
          Todo.createdAt := Int now; Todo.rest := ∅ |}) →
  Forall P (Home.todos (Home.page w)) →
  Forall P (Home.todos (Home.page (Home.step w e))).
Proof.
  intros Hflip Hnew HL. rewrite step_todos.
  destruct e as [env|value|i|i| |key]; simpl Home.handler.
  - unfold Home.handleSubmit. case_decide as Htrim; [done|].
    simpl. constructor; [|done]. apply Hnew.
  - done.
  - rewrite toggleTodo_todos. apply Forall_fmap.
    eapply Forall_impl; [exact HL|]. intros todo Htodo. simpl.
    unfold flip_if. case_decide; [by apply Hflip | done].
  - by apply Forall_filter_keeps.
  - by apply Forall_filter_keeps.
  - done.
Qed.

Lemma run_keeps (P : Todo → Prop) (w : Home.world) (es : list Home.event) :
  (∀ todo, P todo →
     P {| Todo.id := Todo.id todo; Todo.text := Todo.text todo;
          Todo.completed := negb (Todo.completed todo);
          Todo.createdAt := Todo.createdAt todo;
          Todo.rest := Todo.rest todo |}) →
  (∀ i t now,
     P {| Todo.id := i; Todo.text := t; Todo.completed := false;
          Todo.createdAt := Int now; Todo.rest := ∅ |}) →
  Forall P (Home.todos (Home.page w)) →
  Forall P (Home.todos (Home.page (Home.run w es))).
Proof.
  intros Hflip Hnew. revert w.
  induction es as [|e es IH]; intros w Hw; [done|].
  apply IH. by apply step_keeps.
Qed.

(** The todos of the list stay proper, and stay exact. *)
Lemma run_proper (w : Home.world) (es : list Home.event) :
  Forall proper (Home.todos (Home.page w)) →
  Forall proper (Home.todos (Home.page (Home.run w es))).
Proof. apply run_keeps; [done|]. intros. reflexivity. Qed.

Lemma run_exact (w : Home.world) (es : list Home.event) :
  Forall exact_todo (Home.todos (Home.page w)) →
  Forall exact_todo (Home.todos (Home.page (Home.run w es))).
Proof.
  apply run_keeps; [done|]. intros. split; [done|]. apply map_Forall_empty.
Qed.

(** What [loadTodos] returns is proper. *)
Lemma loadTodos_proper (h : host) (L : list Todo) :
  loadTodos h = Return L → Forall proper L.
Proof.
  intros HL. apply Forall_forall. intros todo Hin.
  destruct h as [|ls].
  { injection HL as <-. by apply elem_of_nil in Hin. }
  destruct (ls !! STORAGE_KEY) as [[| |v]|] eqn:H.
  - rewrite (loadTodos_unreadable ls Blank) in HL by auto.
    injection HL as <-. by apply elem_of_nil in Hin.
  - rewrite (loadTodos_unreadable ls Garbage) in HL by auto.
    injection HL as <-. by apply elem_of_nil in Hin.
  - destruct (Array_isArray v) eqn:Hv.
    + destruct v as [| | | |a|]; try done.
      destruct (null_element_or_not a) as [Hnull|Hnull].
      * rewrite (loadTodos_array_null ls a) in HL by done.
        injection HL as <-. by apply elem_of_nil in Hin.
      * rewrite (loadTodos_array ls a) in HL by done.
        injection HL as <-.
        apply list_elem_of_omap in Hin as (x & _ & Hread).
        apply as_Todo_record_of in Hread as ->. apply proper_record_of.
    + rewrite (loadTodos_not_array ls v) in HL by done.
      injection HL as <-. by apply elem_of_nil in Hin.
  - rewrite loadTodos_absent in HL by done.
    injection HL as <-. by apply elem_of_nil in Hin.
Qed.

(** X10: in a browser, with effects that run once for a commit, reloading
    the page after any events shows the list as a save and a load give it
    back: without the todos whose [createdAt] is [NaN] or an infinity, and
    with the numbers of the others, in every property, as [JSON] writes
    them; the input is empty and the filter is on [all]. *)
Theorem reload_finds_the_list (ls : gmap string stored) (w w' : Home.world)
    (es : list Home.event) :
  Home.mount (Browser ls) = Return w →
  Home.mount (Home.env (Home.run w es)) = Return w' →
  Home.page w' =
    {| Home.todos := omap reread (Home.todos (Home.page (Home.run w es)));
       Home.text := "";
       Home.filter := Filter.all |}.
Proof.
  intros Hw (L & HL & -> & _)%mount_world.
  destruct (other_keys_exist ls w es Hw) as (ls' & Hls').
  pose proof (run_mirrored w es (mount_mirrored _ w Hw)) as H.
  unfold mirrored in H. rewrite Hls' in H, HL.
  rewrite (load_stored _ _ H) in HL. by injection HL as <-.
Qed.

Lemma reload_finds_the_list_witness :
  Home.page (mounted (Home.env (Home.run (mounted (Browser ∅)) session))) =
  {| Home.todos :=
       omap reread
         (Home.todos (Home.page (Home.run (mounted (Browser ∅)) session)));
     Home.text := "";
     Home.filter := Filter.all |}.
Proof.
  apply (reload_finds_the_list ∅ (mounted (Browser ∅)) _ session);
    reflexivity.
Defined.

(** X11: in a browser, with effects that run once for a commit, when
    every number of the startup list is finite and not [-0], the
    [createdAt] and the numbers in the other properties of its todos,
    reloading the page after any events shows the list that was on the
    page, every todo with all its properties. *)
Theorem reload_restores_the_list (ls : gmap string stored)
    (w w' : Home.world) (es : list Home.event) :
  Home.mount (Browser ls) = Return w →
  Forall exact_todo (Home.todos (Home.page w)) →
  Home.mount (Home.env (Home.run w es)) = Return w' →
  Home.todos (Home.page w') = Home.todos (Home.page (Home.run w es)).
Proof.
  intros Hw Hexact (L & HL & -> & _)%mount_world. simpl.
  destruct (other_keys_exist ls w es Hw) as (ls' & Hls').
  pose proof (run_mirrored w es (mount_mirrored _ w Hw)) as H.
  unfold mirrored in H. rewrite Hls' in H, HL.
  rewrite (load_stored _ _ H) in HL. injection HL as <-.
  apply omap_reread_exact; [|by apply run_exact].
  apply run_proper. apply mount_todos in Hw. by eapply loadTodos_proper.
Qed.

Lemma reload_restores_the_list_witness :
  Home.todos
    (Home.page (mounted (Home.env (Home.run (mounted stored_tagged) session)))) =
  Home.todos (Home.page (Home.run (mounted stored_tagged) session)).
Proof.
  apply (reload_restores_the_list (store_of stored_tagged)
           (mounted stored_tagged) _ session).
  - reflexivity.
  - repeat constructor; try done; by apply exact_numbers_object.
  - reflexivity.
Defined.

(** X12: when what is stored is not JSON text, or is an array with a
    [null] among its elements, the first commit starts from the empty list
    and overwrites the item with the text of the empty array: what was
    stored is gone. *)
Theorem mount_overwrites_unreadable (ls : gmap string stored) (s : stored) :
  ls !! STORAGE_KEY = Some s →
  s = Garbage ∨ (∃ a, s = Doc (VArray a) ∧ VNull ∈ a) →
  Home.mount (Browser ls) =
  Return {| Home.page := Home.initial;
            Home.env := Browser (<[STORAGE_KEY := Doc (VArray [])]> ls) |}.
Proof.
  intros Hs Hbad.
  assert (loadTodos (Browser ls) = Return []) as Hload.
  { destruct Hbad as [->|(a & -> & Ha)].
    - eapply loadTodos_unreadable; eauto.
    - by eapply loadTodos_array_null. }
  unfold Home.mount. rewrite Hload. simpl.
  unfold JSON_stringify; simpl. by rewrite insert_insert_eq.
Qed.

Lemma mount_overwrites_unreadable_witness :
  Home.mount (Browser {[ STORAGE_KEY := Doc (VArray null_and_milk) ]}) =
  Return
    {| Home.page := Home.initial;
       Home.env :=
         Browser (<[STORAGE_KEY := Doc (VArray [])]>
                    {[ STORAGE_KEY := Doc (VArray null_and_milk) ]}) |}.
Proof.
  apply (mount_overwrites_unreadable _ (Doc (VArray null_and_milk)));
    [reflexivity|].
  right. exists null_and_milk. split; [reflexivity | by left].
Defined.

(** ** How the handlers compose *)

Lemma trim_empty : trim "" = "".
Proof. reflexivity. Qed.

(** X13: a submit that follows a submit adds nothing: the first one
    either returned early, and so does the second, or emptied the input. *)
Theorem second_submit_adds_nothing (env1 env2 : ambient) (st : Home.State) :
  let st1 := Home.render (Home.handleSubmit env1 st) st in
  Home.render (Home.handleSubmit env2 st1) st1 = st1.
Proof.
  intros st1.
  assert (trim (Home.text st1) = "") as Hblank.
  { subst st1. unfold Home.handleSubmit.
    destruct (decide (trim (Home.text st) = "")); [done|]. apply trim_empty. }
  unfold Home.handleSubmit at 1. by rewrite decide_True.
Qed.

Lemma handleSubmit_todos (env : ambient) (st : Home.State) :
  trim (Home.text st) ≠ "" →
  Home.todos (Home.render (Home.handleSubmit env st) st) =
  {| Todo.id := createId env;
     Todo.text := trim (Home.text st);
     Todo.completed := false;
     Todo.createdAt := Int (Date_now env); Todo.rest := ∅ |} :: Home.todos st.
Proof. intros H. unfold Home.handleSubmit. by rewrite decide_False. Qed.

(** X14: when the id that [createId] returns is not in the list, removing
    that id after the submit gives the list back. *)
Theorem deleteTodo_undoes_add (env : ambient) (st : Home.State) :
  trim (Home.text st) ≠ "" →
  createId env ∉ ids (Home.todos st) →
  Home.todos
    (Home.render (Home.deleteTodo (createId env))
       (Home.render (Home.handleSubmit env st) st)) =
  Home.todos st.
Proof.
  intros Htyped Hfresh.
  rewrite deleteTodo_todos, handleSubmit_todos by done.
  rewrite filter_cons_False by (simpl; auto).
  by apply filter_other_ids.
Qed.

Lemma deleteTodo_undoes_add_witness :
  Home.todos
    (Home.render (Home.deleteTodo (createId fallback_host))
       (Home.render (Home.handleSubmit fallback_host typed_milk) typed_milk)) =
  [].
Proof.
  apply (deleteTodo_undoes_add fallback_host typed_milk).
  - vm_compute. discriminate.
  - apply not_elem_of_nil.
Defined.

Lemma filter_id_flip (i j : string) (L : list Todo) :
  filter (λ todo, Todo.id todo ≠ i) (flip_if j <$> L) =
  flip_if j <$> filter (λ todo, Todo.id todo ≠ i) L.
Proof.
  induction L as [|todo L IH]; [done|].
  rewrite fmap_cons, !filter_cons, flip_if_id.
  case_decide; [|done]. by rewrite fmap_cons, IH.
Qed.

Lemma ids_filter_out (i : string) (L : list Todo) :
  i ∉ ids (filter (λ todo, Todo.id todo ≠ i) L).
Proof.
  intros (todo & -> & [Hne _]%list_elem_of_filter)%list_elem_of_fmap.
  by apply Hne.
Qed.

(** X15: removing an id after toggling it, or toggling it after removing
    it, is removing it. *)
Theorem deleteTodo_absorbs_toggle (i : string) (st : Home.State) :
  Home.render (Home.deleteTodo i) (Home.render (Home.toggleTodo i) st) =
    Home.render (Home.deleteTodo i) st ∧
  Home.render (Home.toggleTodo i) (Home.render (Home.deleteTodo i) st) =
    Home.render (Home.deleteTodo i) st.
Proof.
  assert (flip_if i <$> filter (λ todo, Todo.id todo ≠ i) (Home.todos st) =
          filter (λ todo, Todo.id todo ≠ i) (Home.todos st)) as H.
  { apply flip_if_others, ids_filter_out. }
  split; (apply State_eq; [|done|done]).
  - by rewrite deleteTodo_todos, toggleTodo_todos, filter_id_flip.
  - by rewrite toggleTodo_todos, deleteTodo_todos.
Qed.

Lemma flip_if_comm (i j : string) (todo : Todo) :
  flip_if i (flip_if j todo) = flip_if j (flip_if i todo).
Proof.
  unfold flip_if. destruct todo as [k t c n]; simpl.
  by repeat (case_decide; simpl in * ).
Qed.

Lemma filter_comm {A} (P Q : A → Prop)
    `{!∀ x, Decision (P x), !∀ x, Decision (Q x)} (l : list A) :
  filter P (filter Q l) = filter Q (filter P l).
Proof.
  induction l as [|x l IH]; [done|].
  rewrite !filter_cons.
  destruct (decide (P x)), (decide (Q x));
    rewrite ?filter_cons_True, ?filter_cons_False by done; by rewrite ?IH.
Qed.

(** X16: two toggles commute, two removals commute, a removal commutes
    with a toggle, of the same id or another, and with "Clear completed". *)
Theorem handlers_commute (i j : string) (st : Home.State) :
  Home.render (Home.toggleTodo i) (Home.render (Home.toggleTodo j) st) =
    Home.render (Home.toggleTodo j) (Home.render (Home.toggleTodo i) st) ∧
  Home.render (Home.deleteTodo i) (Home.render (Home.deleteTodo j) st) =
    Home.render (Home.deleteTodo j) (Home.render (Home.deleteTodo i) st) ∧
  Home.render (Home.deleteTodo i) (Home.render (Home.toggleTodo j) st) =
    Home.render (Home.toggleTodo j) (Home.render (Home.deleteTodo i) st) ∧
  Home.render (Home.deleteTodo i) (Home.render Home.clearCompleted st) =
    Home.render Home.clearCompleted (Home.render (Home.deleteTodo i) st).
Proof.
  split_and!; (apply State_eq; [|done|done]).
  - rewrite !toggleTodo_todos, <- !list_fmap_compose.
    apply list_fmap_ext. intros _ todo _. apply flip_if_comm.
  - rewrite !deleteTodo_todos. apply filter_comm.
  - by rewrite deleteTodo_todos, !toggleTodo_todos, deleteTodo_todos, filter_id_flip.
  - rewrite deleteTodo_todos, !clearCompleted_todos, deleteTodo_todos.
    apply filter_comm.
Qed.

(** ** The text of a todo *)

Lemma trimStart_clean (s : string) : starts_clean (trimStart s).
Proof.
  induction s as [|c s IH]; [done|]. simpl.
  by destruct (is_white c) eqn:Hc.
Qed.

Lemma trimStart_of_clean (s : string) : starts_clean s → trimStart s = s.
Proof. destruct s as [|c s]; [done|]. simpl. by intros ->. Qed.

Lemma trimEnd_clean (s : string) : starts_clean s → starts_clean (trimEnd s).
Proof.
  destruct s as [|c s]; [done|]. simpl. intros Hc.
  destruct (trimEnd s); [by rewrite Hc | done].
Qed.

Lemma trimEnd_idemp (s : string) : trimEnd (trimEnd s) = trimEnd s.
Proof.
  induction s as [|c s IH]; [done|]. simpl.
  destruct (trimEnd s) as [|d r] eqn:Hs.
  - destruct (is_white c) eqn:Hc; [done|]. simpl. by rewrite Hc.
  - change (trimEnd (String c (String d r))) with
      (match trimEnd (String d r) with
       | EmptyString =>
           if is_white c then EmptyString else String c EmptyString
       | rest => String c rest
       end).
    by rewrite IH.
Qed.

Lemma trim_idemp (s : string) : trim (trim s) = trim s.
Proof.
  unfold trim.
  rewrite (trimStart_of_clean (trimEnd (trimStart s))).
  - apply trimEnd_idemp.
  - apply trimEnd_clean, trimStart_clean.
Qed.

Lemma step_tidy (w : Home.world) (e : Home.event) :
  Forall tidy (Home.todos (Home.page w)) →
  Forall tidy (Home.todos (Home.page (Home.step w e))).
Proof.
  intros HL. rewrite step_todos.
  destruct e as [env|value|i|i| |key]; simpl Home.handler.
  - unfold Home.handleSubmit. case_decide as Htrim; [done|].
    simpl. constructor; [|done]. split; [done|]. apply trim_idemp.
  - done.
  - rewrite toggleTodo_todos. apply Forall_fmap.
    eapply Forall_impl; [exact HL|]. intros todo Htodo. simpl.
    unfold flip_if. by case_decide.
  - by apply Forall_filter_keeps.
  - by apply Forall_filter_keeps.
  - done.
Qed.

(** X17: no event gives a todo an empty text or a text with white space
    at an end: when the todos of the list have none, so have the todos of
    every list that follows. *)
Theorem texts_stay_tidy (w : Home.world) (es : list Home.event) :
  Forall tidy (Home.todos (Home.page w)) →
  Forall tidy (Home.todos (Home.page (Home.run w es))).
Proof.
  revert w. induction es as [|e es IH]; intros w Hw; [done|].
  apply IH. by apply step_tidy.
Qed.

Lemma texts_stay_tidy_witness :
  Forall tidy (Home.todos (Home.page (Home.run empty_page session))).
Proof. apply texts_stay_tidy. constructor. Defined.

(** ** Ids made without [crypto.randomUUID] *)

Lemma digits_then_dash (d1 d2 : Decimal.uint) (r1 r2 : string) :
  NilEmpty.string_of_uint d1 +:+ "-" +:+ r1 =
  NilEmpty.string_of_uint d2 +:+ "-" +:+ r2 →
  d1 = d2 ∧ r1 = r2.
Proof.
  revert d2. induction d1 as [|d1 IH|d1 IH|d1 IH|d1 IH|d1 IH|d1 IH|d1 IH|d1 IH|d1 IH|d1 IH];
    intros [|d2|d2|d2|d2|d2|d2|d2|d2|d2|d2]; simpl; intros [= H];
    try (destruct (IH _ H) as [-> ->]); done.
Qed.

Lemma Number_toString_nonneg (z : Z) :
  (0 ≤ z)%Z →
  ∃ d, Z.to_int z = Decimal.Pos d ∧
       Number_toString z = NilEmpty.string_of_uint d.
Proof.
  intros Hz. destruct z as [|p|p]; [by eexists| |lia].
  exists (Pos.to_uint p). split; [done|].
  unfold Number_toString; simpl.
  pose proof (DecimalPos.Unsigned.to_uint_nonnil p) as Hp.
  by destruct (Pos.to_uint p).
Qed.

Lemma createId_fallback (env : ambient) :
  native_uuid env = None →
  createId env =
  Number_toString (Date_now_id env) +:+ "-" +:+
  String_slice 2 (Math_random_hex env).
Proof.
  unfold native_uuid, createId.
  destruct (crypto env) as [[[u|]]|]; done.
Qed.

(** X18: without [crypto.randomUUID], and with a clock that is not before
    1970, the id tells the time stamp and the random digits: two calls that
    return the same id read the same [Date.now()] and the same digits after
    the first two characters of [Math.random().toString(16)]. *)
Theorem createId_fallback_injective (env1 env2 : ambient) :
  native_uuid env1 = None →
  native_uuid env2 = None →
  (0 ≤ Date_now_id env1)%Z →
  (0 ≤ Date_now_id env2)%Z →
  createId env1 = createId env2 →
  Date_now_id env1 = Date_now_id env2 ∧
  String_slice 2 (Math_random_hex env1) =
    String_slice 2 (Math_random_hex env2).
Proof.
  intros H1 H2 Hz1 Hz2. rewrite !createId_fallback by done.
  destruct (Number_toString_nonneg _ Hz1) as (d1 & Hd1 & ->).
  destruct (Number_toString_nonneg _ Hz2) as (d2 & Hd2 & ->).
  intros [-> Hr]%digits_then_dash. split; [|done].
  apply DecimalZ.to_int_inj. by rewrite Hd1, Hd2.
Qed.

Lemma createId_fallback_injective_witness :
  Date_now_id fallback_host = Date_now_id legacy_host ∧
  String_slice 2 (Math_random_hex fallback_host) =
    String_slice 2 (Math_random_hex legacy_host).
Proof.
  apply createId_fallback_injective; try reflexivity; by vm_compute.
Defined.
